(** * vite-ssg render engine: route enumeration, page worker, supervisor

  A shallow embedding of [src/node/utils.ts], [src/node/renderWorker.ts]
  and [src/node/render.ts], followed by the properties that the
  specification states about them.

  JavaScript strings are modelled by [string]; every marker the code
  looks for is ASCII.  A value that may be [undefined] is an [option].
  A number is modelled by its exact value, a rational, and an operation
  on numbers by the exact operation followed by the rounding of IEEE 754
  binary64.  Promises are modelled by their final outcome (fulfilled,
  rejected, or never settled) and the effects of an [async] function by
  explicit state passing over a [World]. *)

From Stdlib Require Import String Ascii List ZArith QArith Qround Qminmax Lia Bool.
From Stdlib Require Import Qabs Qpower Lqa SpecFloat.
From Stdlib Require Import Decimal DecimalString.
From stdpp Require Import base option list strings gmap.

Import ListNotations.
Local Open Scope string_scope.
Local Open Scope list_scope.

#[local] Arguments String.append !_ _ / : simpl nomatch.

(* ================================================================== *)
(** ** JavaScript string primitives used by the sources *)
(* ================================================================== *)

Module JS.

Definition slash : ascii := "/"%char.

(** [if (x)] on a value that is a string or [undefined]. *)
Definition truthy (o : option string) : bool :=
  match o with
  | Some s => negb (String.eqb s "")
  | None => false
  end.

(** A default parameter [p = ''] : used when the argument is [undefined]. *)
Definition orEmpty (o : option string) : string :=
  match o with Some s => s | None => "" end.

(** [s.startsWith(p)] *)
Definition startsWith (p s : string) : bool := String.prefix p s.

(** [s.endsWith(p)] : some tail of [s] is [p]. *)
Fixpoint endsWith (p s : string) : bool :=
  if String.eqb p s then true
  else match s with
       | EmptyString => false
       | String _ s' => endsWith p s'
       end.

(** [s.includes(p)] : some tail of [s] starts with [p]. *)
Fixpoint includes (p s : string) : bool :=
  if String.prefix p s then true
  else match s with
       | EmptyString => false
       | String _ s' => includes p s'
       end.

(** [s.replace(/^\//g, '')] : the anchor only matches at index 0, so at
    most one leading slash goes. *)
Definition removeLeadingSlash (s : string) : string :=
  match s with
  | String c s' => if Ascii.eqb c slash then s' else s
  | EmptyString => EmptyString
  end.

(** [s.replace(/\/$/g, '')] : the anchor only matches at the end, so at
    most one trailing slash goes. *)
Fixpoint removeTrailingSlash (s : string) : string :=
  match s with
  | EmptyString => EmptyString
  | String c EmptyString => if Ascii.eqb c slash then EmptyString else s
  | String c s' => String c (removeTrailingSlash s')
  end.

(** [p] stripped from the front of [s], when [s] starts with it. *)
Fixpoint stripPrefix (p s : string) : option string :=
  match p, s with
  | EmptyString, _ => Some s
  | String a p', String b s' =>
      if Ascii.eqb a b then stripPrefix p' s' else None
  | String _ _, EmptyString => None
  end.

(** The text before and after the first occurrence of [p] in [s]. *)
Fixpoint splitFirst (p s : string) : option (string * string) :=
  match stripPrefix p s with
  | Some rest => Some (EmptyString, rest)
  | None =>
      match s with
      | EmptyString => None
      | String c s' =>
          match splitFirst p s' with
          | Some (before, after) => Some (String c before, after)
          | None => None
          end
      end
  end.

(** ECMAScript [GetSubstitution] for a string pattern (no capture
    groups): in the replacement text [$$] is a dollar, [$&] the match,
    [$`] the text before it, [$'] the text after it; any other [$]
    stands for itself. *)
Fixpoint getSubstitution (matched before after template : string) : string :=
  match template with
  | EmptyString => EmptyString
  | String c t =>
      if Ascii.eqb c "$" then
        match t with
        | EmptyString => String c EmptyString
        | String d rest =>
            if Ascii.eqb d "$" then
              String "$" (getSubstitution matched before after rest)
            else if Ascii.eqb d "&" then
              matched +:+ getSubstitution matched before after rest
            else if Ascii.eqb d "`" then
              before +:+ getSubstitution matched before after rest
            else if Ascii.eqb d "'" then
              after +:+ getSubstitution matched before after rest
            else String c (getSubstitution matched before after t)
        end
      else String c (getSubstitution matched before after t)
  end.

(** [s.replace(p, r)] with a string pattern: only the first occurrence
    is replaced; without an occurrence [s] comes back as it is. *)
Definition replace (p r s : string) : string :=
  match splitFirst p s with
  | Some (before, after) =>
      before +:+ getSubstitution p before after r +:+ after
  | None => s
  end.

(** The characters that give a [$] a meaning in a replacement text. *)
Definition patternChar (c : ascii) : bool :=
  Ascii.eqb c "$" || Ascii.eqb c "&" || Ascii.eqb c "`" || Ascii.eqb c "'".

(** A text in which no [$] is followed by such a character. *)
Fixpoint patternFree (s : string) : bool :=
  match s with
  | EmptyString => true
  | String c t =>
      if Ascii.eqb c "$" then
        match t with
        | EmptyString => true
        | String d _ => negb (patternChar d) && patternFree t
        end
      else patternFree t
  end.

(** A [Set<string>] in insertion order, and [Set.prototype.add]. *)
Definition JsSet := list string.

Definition has (x : string) (s : JsSet) : bool := existsb (String.eqb x) s.

Definition add (x : string) (s : JsSet) : JsSet :=
  if has x s then s else s ++ [x].

(** [Array.from(new Set(xs))] *)
Definition fromArray (xs : list string) : JsSet :=
  fold_left (fun s x => add x s) xs [].

(** [s.replace(/p/g, r)] for a pattern [p] of ordinary characters, not
    empty: the occurrences are taken from left to right, without overlap;
    [skip] counts the characters of the last match still to pass, and
    [before] is the text in front of the place reached. *)
Fixpoint replaceEach (p r : string) (skip : nat) (before rest : string)
         {struct rest} : string :=
  match rest with
  | EmptyString => EmptyString
  | String c rest' =>
      match skip with
      | S k => replaceEach p r k (before +:+ String c EmptyString) rest'
      | O =>
          match stripPrefix p rest with
          | Some after =>
              getSubstitution p before after r
              +:+ replaceEach p r (String.length p - 1)
                              (before +:+ String c EmptyString) rest'
          | None =>
              String c (replaceEach p r 0 (before +:+ String c EmptyString) rest')
          end
      end
  end.

Definition replaceAll (p r s : string) : string :=
  replaceEach p r 0 EmptyString s.

End JS.

(* ================================================================== *)
(** ** utils.ts : route enumeration *)
(* ================================================================== *)

Module Utils.

(** The two fields of a vue-router [RouteRecordRaw] that the code reads. *)
#[local] Unset Elimination Schemes.
Inductive RouteRecordRaw : Type :=
| Route (path : option string) (children : option (list RouteRecordRaw)).
#[local] Set Elimination Schemes.

(** Induction over a route tree: the children of a node may be assumed
    to satisfy the property. *)
Fixpoint RouteRecordRaw_ind
  (P : RouteRecordRaw -> Prop)
  (step : forall rp rc,
      (forall cs, rc = Some cs -> List.Forall P cs) -> P (Route rp rc))
  (r : RouteRecordRaw) {struct r} : P r :=
  match r with
  | Route rp rc =>
      step rp rc
        (match rc as o return forall cs, o = Some cs -> List.Forall P cs with
         | None => fun cs E => match E in _ = y return
                                 match y with None => True | Some _ => _ end
                               with eq_refl => I end
         | Some l =>
             fun cs E =>
               match E in _ = y return
                 match y with Some cs' => List.Forall P cs' | None => True end
               with
               | eq_refl =>
                   (fix all (l : list RouteRecordRaw) : List.Forall P l :=
                      match l with
                      | [] => @List.Forall_nil _ P
                      | c :: l' =>
                          @List.Forall_cons _ P c l'
                            (RouteRecordRaw_ind P step c) (all l')
                      end) l
               end
         end)
  end.

Definition routePath (r : RouteRecordRaw) : option string :=
  match r with Route p _ => p end.

Definition routeChildren (r : RouteRecordRaw) : option (list RouteRecordRaw) :=
  match r with Route _ c => c end.

(** [prefix && !route.path.startsWith('/') ? `${prefix}/${route.path}` : route.path] *)
Definition joinPrefix (prefix p : string) : string :=
  if negb (String.eqb prefix "") && negb (JS.startsWith "/" p)
  then prefix +:+ "/" +:+ p
  else p.

(** The value of the loop variable [path] after the [if (route.path)]
    block, for a stripped [prefix]. *)
Definition nodePath (prefix : string) (r : RouteRecordRaw) : option string :=
  if JS.truthy (routePath r)
  then Some (joinPrefix prefix (JS.orEmpty (routePath r)))
  else routePath r.

(** The prefix in force inside [getPaths(route.children, path)]. *)
Definition childPrefix (prefix : string) (r : RouteRecordRaw) : string :=
  JS.removeTrailingSlash (JS.orEmpty (nodePath prefix r)).

(** One iteration of the [for] loop of [getPaths]; [prefix] has already
    lost its trailing slash and [paths] is the shared set. *)
Fixpoint loopBody (prefix : string) (route : RouteRecordRaw)
         (paths : JS.JsSet) {struct route} : JS.JsSet :=
  match route with
  | Route rp rc =>
      let paths1 :=
        if JS.truthy rp
        then JS.add (joinPrefix prefix (JS.orEmpty rp)) paths
        else paths in
      match rc with
      | Some cs =>
          let prefix' := childPrefix prefix (Route rp rc) in
          (fix each (rs : list RouteRecordRaw) (acc : JS.JsSet) : JS.JsSet :=
             match rs with
             | [] => acc
             | r :: rs' => each rs' (loopBody prefix' r acc)
             end) cs paths1
      | None => paths1
      end
  end.

Definition getPaths (routes : list RouteRecordRaw) (prefix : option string)
           (paths : JS.JsSet) : JS.JsSet :=
  let prefix := JS.removeTrailingSlash (JS.orEmpty prefix) in
  fold_left (fun acc r => loopBody prefix r acc) routes paths.

Definition routesToPaths (routes : option (list RouteRecordRaw)) : list string :=
  match routes with
  | None => ["/"]
  | Some rs => getPaths rs None []
  end.

(** What a node adds to the set when the loop body runs on it under
    [prefix]. *)
Definition emitted (prefix : string) (r : RouteRecordRaw) : option string :=
  if JS.truthy (routePath r)
  then Some (joinPrefix prefix (JS.orEmpty (routePath r)))
  else None.

(** [visits prefix r prefix' n] : running the loop body on [r] under
    [prefix] runs it on the node [n] of the tree of [r] under [prefix']. *)
Inductive visits : string -> RouteRecordRaw -> string -> RouteRecordRaw -> Prop :=
| visits_here prefix r : visits prefix r prefix r
| visits_below prefix r cs c prefix' n :
    routeChildren r = Some cs ->
    In c cs ->
    visits (childPrefix prefix r) c prefix' n ->
    visits prefix r prefix' n.

(** The loop body run on [r] under [prefix] adds [x] for some node. *)
Definition emits (prefix : string) (r : RouteRecordRaw) (x : string) : Prop :=
  exists prefix' n, visits prefix r prefix' n /\ emitted prefix' n = Some x.

(** The digits of [n], two at least. *)
Definition twoDigits (n : nat) : string :=
  (if Nat.ltb n 10 then "0" else "") +:+ NilZero.string_of_uint (Nat.to_uint n).

(** [x.toFixed(2)] for [x = hundredths / 100]. *)
Definition toFixed2 (hundredths : nat) : string :=
  NilZero.string_of_uint (Nat.to_uint (hundredths / 100))
  +:+ "." +:+ twoDigits (hundredths mod 100).

(** The hundredth nearest to [len / 1024], the larger one of two: the
    quotient is a double without rounding, and this is how [toFixed]
    chooses. *)
Definition hundredthsOfKiB (len : nat) : nat := (200 * len + 1024) / 2048.

(** [`${(str.length / 1024).toFixed(2)} KiB`] *)
Definition getSize (str : string) : string :=
  toFixed2 (hundredthsOfKiB (String.length str)) +:+ " KiB".

End Utils.

(* ================================================================== *)
(** ** node:path, POSIX flavour, as far as the worker uses it *)
(* ================================================================== *)

Module Path.

(** The segments between the slashes of a path. *)
Fixpoint segments (s : string) : list string :=
  match s with
  | EmptyString => [EmptyString]
  | String c s' =>
      if Ascii.eqb c JS.slash then EmptyString :: segments s'
      else match segments s' with
           | seg :: segs => String c seg :: segs
           | [] => [String c EmptyString]
           end
  end.

(** One step of Node's [normalizeString]: [stack] holds the segments kept
    so far, last one first. *)
Definition pushSegment (allowAboveRoot : bool) (stack : list string)
           (seg : string) : list string :=
  if String.eqb seg "" || String.eqb seg "." then stack
  else if String.eqb seg ".." then
    match stack with
    | top :: rest =>
        if String.eqb top ".."
        then (if allowAboveRoot then seg :: stack else stack)
        else rest
    | [] => if allowAboveRoot then [seg] else []
    end
  else seg :: stack.

(** [path.normalize] *)
Definition normalize (p : string) : string :=
  if String.eqb p "" then "."
  else
    let isAbsolute := JS.startsWith "/" p in
    let trailing := JS.endsWith "/" p in
    let kept := rev (fold_left (pushSegment (negb isAbsolute)) (segments p) []) in
    let body := String.concat "/" kept in
    if String.eqb body "" then
      (if isAbsolute then "/" else if trailing then "./" else ".")
    else
      (if isAbsolute then "/" else "") +:+ body +:+ (if trailing then "/" else "").

(** [path.join(...args)] : empty arguments are skipped, the rest is joined
    with slashes and normalized. *)
Definition join (args : list string) : string :=
  match List.filter (fun a => negb (String.eqb a "")) args with
  | [] => "."
  | kept => normalize (String.concat "/" kept)
  end.

(** A segment that normalization keeps as it is. *)
Definition plainSegment (s : string) : bool :=
  negb (String.eqb s "") && negb (JS.includes "/" s)
  && negb (String.eqb s ".") && negb (String.eqb s "..").

Fixpoint dropWhile {A} (f : A -> bool) (l : list A) : list A :=
  match l with
  | [] => []
  | x :: l' => if f x then dropWhile f l' else l
  end.

(** [path.dirname] : scanning from the end and never looking at index 0,
    trailing slashes are skipped, then the last segment, and the path is
    cut at the slash in front of it. *)
Definition dirname (p : string) : string :=
  match p with
  | EmptyString => "."
  | String c0 rest =>
      let hasRoot := Ascii.eqb c0 JS.slash in
      let isSlash := fun c => Ascii.eqb c JS.slash in
      let back := rev (list_ascii_of_string rest) in
      match dropWhile (fun c => negb (isSlash c)) (dropWhile isSlash back) with
      | [] => if hasRoot then "/" else "."
      | _ :: front =>
          match front with
          | [] => if hasRoot then "//" else String c0 EmptyString
          | _ => String c0 (string_of_list_ascii (rev front))
          end
      end
  end.

(** [p] followed by the directories above it, as long as [dirname]
    still moves. *)
Fixpoint upwards (fuel : nat) (p : string) : list string :=
  p :: match fuel with
       | O => []
       | S fuel' =>
           if String.eqb (dirname p) p then [] else upwards fuel' (dirname p)
       end.

(** [p] and every directory above it, [p] first: each [dirname] is
    shorter than its argument until it gets to ["/"] or ["."], where it
    stays. *)
Definition ancestry (p : string) : list string :=
  upwards (S (String.length p)) p.

End Path.

(* ================================================================== *)
(** ** JavaScript numbers *)
(* ================================================================== *)

Module Double.
Local Open Scope Q_scope.

(** A finite IEEE 754 binary64 number is modelled by its exact value, a
    rational; an operation is the exact operation followed by [round].
    Overflow to [Infinity] is left out: [round] is the rounding of the
    standard for rationals below [2 ^ 1024] in absolute value. *)

(** The integer [l] with [2 ^ l <= q < 2 ^ (l + 1)], for [0 < q]. *)
Definition ilog2 (q : Q) : Z :=
  let l := (Z.log2 (Qnum q) - Z.log2 (Zpos (Qden q)))%Z in
  if Qle_bool (2 ^ l) q then l else (l - 1)%Z.

(** The nearest integer, the even one of two. *)
Definition roundTiesToEven (q : Q) : Z :=
  let f := Qfloor q in
  match Qcompare (q - inject_Z f) (1 # 2) with
  | Lt => f
  | Gt => (f + 1)%Z
  | Eq => if Z.even f then f else (f + 1)%Z
  end.

(** The exponent of the last of the 53 bits of the significand of [q];
    not below that of the subnormal numbers. *)
Definition ulpExponent (q : Q) : Z := Z.max (ilog2 (Qabs q) - 52) (-1074).

(** The binary64 number nearest to [q], ties to the even significand. *)
Definition round (q : Q) : Q :=
  if Qeq_bool q 0 then 0
  else
    let e := ulpExponent q in
    inject_Z (roundTiesToEven (q / 2 ^ e)) * 2 ^ e.

(** An integer as a JavaScript number. *)
Definition ofZ (n : Z) : Q := round (inject_Z n).

(** [x * y] and [x / y] on numbers; [y] is not zero. *)
Definition mul (x y : Q) : Q := round (x * y).
Definition div (x y : Q) : Q := round (x / y).

(** The same numbers in the IEEE 754 model of the standard library:
    an integer as a binary64 number, and the value of a finite number. *)
Definition binary64 (n : Z) : spec_float := binary_normalize 53 1024 n 0 false.

Definition valueOf (x : spec_float) : Q :=
  match x with
  | S754_finite sign m e => inject_Z (if sign then Z.neg m else Z.pos m) * 2 ^ e
  | _ => 0
  end.

End Double.

(* ================================================================== *)
(** ** Promises and effects *)
(* ================================================================== *)

Module Effects.

(** The two values that have no properties. *)
Inductive Nullish : Type := JsUndefined | JsNull.

(** A thrown value, as the [catch] block of the worker sees it when it
    builds [`${err.stack}`]: [null] or [undefined]; a value whose [stack]
    can be read and turned into text, together with that text
    (["undefined"] for a value without a stack); or a value for which
    reading [stack] or turning it into text throws in turn (a getter that
    throws, a [stack] that is a Symbol), together with what is thrown
    then. *)
Inductive Thrown : Type :=
| ThrownNullish (v : Nullish)
| ThrownValue (stackText : string)
| ThrownUnprintable (rethrown : Thrown).

(** What awaiting a promise comes to. [Pending] is a promise that never
    settles: the code after the [await] never runs. *)
Inductive Outcome (A : Type) : Type :=
| Fulfilled (a : A)
| Rejected (e : Thrown)
| Pending.
Arguments Fulfilled {A} a.
Arguments Rejected {A} e.
Arguments Pending {A}.

Inductive LogLine : Type :=
| LogPage (outDir filename : string)
| LogPageError (route stackText : string)
| LogCritters
| LogRendering (pages : nat) (threads : Z)
| LogRegeneratePWA
| LogBuildFinished
| LogForceExit (seconds : Z).

Inductive TimerAction : Type :=
| ForceExit (log : LogLine) (code : Z).

(** A timer made by [setTimeout]; [refed] tells whether it keeps the event
    loop, and so the process, alive. *)
Record Timer : Type := mkTimer {
  delayMs : Z;
  action : TimerAction;
  refed : bool
}.

(** What the supervisor and its workers act on: the lines printed, the
    files that can be read with their content, the directories known to
    be there, how often each hook was called, and the timers. *)
Record World : Type := mkWorld {
  console : list LogLine;
  files : gmap string string;
  directories : gset string;
  swRegenerations : nat;
  finishedCalls : nat;
  timers : list Timer
}.

Definition emptyWorld : World :=
  {| console := []; files := ∅; directories := ∅;
     swRegenerations := 0; finishedCalls := 0; timers := [] |}.

(** An [async] function body. *)
Definition Async (A : Type) : Type := World -> Outcome A * World.

Definition ret {A} (a : A) : Async A := fun w => (Fulfilled a, w).

Definition throw {A} (e : Thrown) : Async A := fun w => (Rejected e, w).

Definition bind {A B} (m : Async A) (k : A -> Async B) : Async B :=
  fun w =>
    match m w with
    | (Fulfilled a, w') => k a w'
    | (Rejected e, w') => (Rejected e, w')
    | (Pending, w') => (Pending, w')
    end.

(** [await p] for a promise of an external collaborator. *)
Definition await {A} (p : Outcome A) : Async A := fun w => (p, w).

(** [try { body } catch (err) { handler }] : a promise that never settles
    is not caught. *)
Definition tryCatch {A} (body : Async A) (handler : Thrown -> Async A) : Async A :=
  fun w =>
    match body w with
    | (Rejected e, w') => handler e w'
    | r => r
    end.

Definition modify (f : World -> World) : Async unit :=
  fun w => (Fulfilled tt, f w).

Definition log (l : LogLine) : Async unit :=
  modify (fun w =>
    {| console := console w ++ [l]; files := files w;
       directories := directories w;
       swRegenerations := swRegenerations w;
       finishedCalls := finishedCalls w; timers := timers w |}).

(** What only the supervisor touches: the two hook counters and the timers. *)
Definition supervisorState (w : World) : nat * nat * list Timer :=
  (swRegenerations w, finishedCalls w, timers w).

(** [m] leaves the observation [f] of the world as it was. *)
Definition Preserves {A X : Type} (f : World -> X) (m : Async A) : Prop :=
  forall w, f (snd (m w)) = f w.

(** [m], when it runs to its end, leaves a file at [key]. *)
Definition Writes {A : Type} (key : string) (m : Async A) : Prop :=
  forall w a, fst (m w) = Fulfilled a -> is_Some (files (snd (m w)) !! key).


(** [m] never runs to its end and leaves the observation [f] as it was. *)
Definition Stops {A X : Type} (f : World -> X) (m : Async A) : Prop :=
  Preserves f m /\ forall w a, fst (m w) <> Fulfilled a.

(** From a world in which [P] holds, [m] does not run to its end and
    leaves the observation [f] as it was. *)
Definition StopsFrom {A X : Type} (P : World -> Prop) (f : World -> X)
           (m : Async A) : Prop :=
  forall w, P w -> f (snd (m w)) = f w /\ forall a, fst (m w) <> Fulfilled a.

(** [m] raises the counter [f] by [n] if it runs to its end, and by at
    most [n] otherwise. *)
Definition Bumps {A : Type} (f : World -> nat) (n : nat) (m : Async A) : Prop :=
  forall w,
    (forall a, fst (m w) = Fulfilled a -> f (snd (m w)) = f w + n) /\
    f (snd (m w)) <= f w + n.

(** What outlasts a run: the files, the directories, the hook counters
    and the timers. *)
Definition durable (w : World)
  : gmap string string * gset string * (nat * nat * list Timer) :=
  (files w, directories w, supervisorState w).

(** From a world in which [P] holds, [m] runs to its end, with a result
    and a world for which [Q] holds. *)
Definition Runs {A : Type} (P : World -> Prop) (m : Async A)
           (Q : A -> World -> Prop) : Prop :=
  forall w, P w -> exists a, fst (m w) = Fulfilled a /\ Q a (snd (m w)).


(** [m] removes no file. *)
Definition KeepsFiles {A : Type} (m : Async A) : Prop :=
  forall w k, is_Some (files w !! k) -> is_Some (files (snd (m w)) !! k).

End Effects.

Declare Scope async_scope.
Delimit Scope async_scope with async.
Notation "'let!' x ':=' m 'in' k" := (Effects.bind m (fun x => k))
  (at level 10, x name, m at level 100, k at level 200) : async_scope.
Notation "'let!' ' p ':=' m 'in' k" := (Effects.bind m (fun p => k))
  (at level 10, p strict pattern, m at level 100, k at level 200) : async_scope.
Notation "'run!' m 'in' k" := (Effects.bind m (fun _ => k))
  (at level 10, m at level 100, k at level 200) : async_scope.

(* ================================================================== *)
(** ** renderWorker.ts : the page renderer *)
(* ================================================================== *)

Module RenderWorker.
Import Effects.
Local Open Scope async_scope.

(** [ViteSSGOptions['dirStyle']] *)
Inductive DirStyle : Type := Flat | Nested.

(** [ViteSSGOptions['formatting']] *)
Inductive Formatting : Type := FormatNone | Minify | Prettify.

Definition Manifest : Type := gmap string (list string).

(** A vue-router instance, as far as the worker drives it. *)
Record Router : Type := mkRouter {
  push : string -> Outcome unit;
  isReady : Outcome unit
}.

(** [ViteSSGContext<true>] : what [createApp(false, route)] resolves to.
    [initialState] is [None] for a falsy value and otherwise the text that
    the template literal [`${initialState}`] produces. *)
Record AppContext (App Head : Type) : Type := mkAppContext {
  app : App;
  router : option Router;
  head : option Head;
  initialState : option string;
  routes : option (list Utils.RouteRecordRaw)
}.
Arguments mkAppContext {App Head}.
Arguments app {App Head}.
Arguments router {App Head}.
Arguments head {App Head}.
Arguments initialState {App Head}.
Arguments routes {App Head}.

(** [(client, routePath?) => Promise<ViteSSGContext>] with [client = false]. *)
Definition CreateAppFactory (App Head : Type) : Type :=
  option string -> Outcome (AppContext App Head).

(** The collaborators of the worker: the built server entry, Vue's
    renderer, jsdom with the preload and head steps, the two HTML
    formatters, the file system, and the effect of the eight [delete]
    statements on the application object.

    [ensureDirFails dir] is [None] when [fs.ensureDir(dir)] succeeds;
    otherwise it gives the error and how many of the directories on the
    way down to [dir] were there or made before the failure.
    [writeFileFails file] is [None] when [fs.writeFile(file, ...)]
    succeeds; otherwise it gives the error and how far the write got:
    [None] when the file could not be opened, [Some n] when it was opened,
    which empties it, and [n] characters were written. *)
Record Collaborators (App Head : Type) : Type := mkCollaborators {
  importEntry : string -> Outcome (CreateAppFactory App Head);
  renderToString : App -> Outcome (string * list string);
  domPipeline : string -> list string -> Manifest -> option Head -> Outcome string;
  minifier : string -> Outcome string;
  prettier : string -> Outcome string;
  ensureDirFails : string -> option (Thrown * nat);
  writeFileFails : string -> option (Thrown * option nat);
  releaseApp : App -> Outcome unit
}.
Arguments importEntry {App Head}.
Arguments renderToString {App Head}.
Arguments domPipeline {App Head}.
Arguments minifier {App Head}.
Arguments prettier {App Head}.
Arguments ensureDirFails {App Head}.
Arguments writeFileFails {App Head}.
Arguments releaseApp {App Head}.

Record WorkerContext : Type := mkWorkerContext {
  route : string;
  dirStyle : DirStyle;
  outDir : string;
  indexHTML : string;
  formatting : Formatting;
  out : string;
  ssrEntryPath : string;
  ssrManifest : Manifest
}.

Definition doubleQuote : string := String "034"%char EmptyString.
Definition newline : string := String "010"%char EmptyString.

(** The literal ['<div id="app"></div>'] *)
Definition mountPoint : string :=
  "<div id=" +:+ doubleQuote +:+ "app" +:+ doubleQuote +:+ "></div>".

(** The literal that opens the rendered mount point. *)
Definition mountOpen : string :=
  "<div id=" +:+ doubleQuote +:+ "app" +:+ doubleQuote
  +:+ " data-server-rendered=" +:+ doubleQuote +:+ "true" +:+ doubleQuote +:+ ">".

Definition stateScript (initialState : option string) : string :=
  match initialState with
  | Some st => newline +:+ "<script>window.__INITIAL_STATE__=" +:+ st +:+ "</script>"
  | None => ""
  end.

Definition renderHTML (indexHTML appHTML : string) (initialState : option string) : string :=
  JS.replace mountPoint
    (mountOpen +:+ appHTML +:+ "</div>" +:+ stateScript initialState)
    indexHTML.

(** [`${(route.endsWith('/') ? `${route}index` : route).replace(/^\//g, '')}.html`] *)
Definition relativeRouteFile (route : string) : string :=
  JS.removeLeadingSlash (if JS.endsWith "/" route then route +:+ "index" else route)
  +:+ ".html".

Definition filename (dirStyle : DirStyle) (route : string) : string :=
  match dirStyle with
  | Nested => Path.join [JS.removeLeadingSlash route; "index.html"]
  | Flat => relativeRouteFile route
  end.

Definition format {App Head} (env : Collaborators App Head)
           (html : string) (formatting : Formatting) : Async string :=
  match formatting with
  | Minify => await (minifier env html)
  | Prettify => await (prettier env html)
  | FormatNone => ret html
  end.

(** The directories [dirs] are there from now on. *)
Definition mkdirs (dirs : list string) : Async unit :=
  modify (fun w =>
    {| console := console w; files := files w;
       directories := list_to_set dirs ∪ directories w;
       swRegenerations := swRegenerations w;
       finishedCalls := finishedCalls w; timers := timers w |}).

(** [fs.ensureDir(dir)] : [dir] is made together with every directory
    above it that is missing, from the top down; a failure leaves the
    ones made before it. *)
Definition ensureDir {App Head} (env : Collaborators App Head) (dir : string) : Async unit :=
  let topDown := rev (Path.ancestry dir) in
  match ensureDirFails env dir with
  | Some (e, made) =>
      run! mkdirs (firstn made topDown) in
      throw e
  | None => mkdirs topDown
  end.

(** The file [file] holds [data] from now on. *)
Definition store (file data : string) : Async unit :=
  modify (fun w =>
    {| console := console w; files := <[file := data]> (files w);
       directories := directories w;
       swRegenerations := swRegenerations w;
       finishedCalls := finishedCalls w; timers := timers w |}).

(** [fs.writeFile(file, data, 'utf-8')] : an existing file is overwritten;
    a write that fails after the file was opened leaves the part of
    [data] written so far. *)
Definition writeFile {App Head} (env : Collaborators App Head)
           (file data : string) : Async unit :=
  match writeFileFails env file with
  | Some (e, Some written) =>
      run! store file (String.substring 0 written data) in
      throw e
  | Some (e, None) => throw e
  | None => store file data
  end.


(** The body of the [try] block of the worker entry. *)
Definition renderPage {App Head} (env : Collaborators App Head)
           (ctx : WorkerContext) : Async unit :=
  let! createApp := await (importEntry env (ssrEntryPath ctx)) in
  let filename := filename (dirStyle ctx) (route ctx) in
  run! log (LogPage (outDir ctx) filename) in
  let! appCtx := await (createApp (Some (route ctx))) in
  run! match router appCtx with
       | Some r =>
           run! await (push r (route ctx)) in
           await (isReady r)
       | None => ret tt
       end in
  let transformedIndexHTML := indexHTML ctx in
  let! '(appHTML, modules) := await (renderToString env (app appCtx)) in
  let renderedHTML := renderHTML transformedIndexHTML appHTML (initialState appCtx) in
  let! html := await (domPipeline env renderedHTML modules (ssrManifest ctx) (head appCtx)) in
  let transformed := html in
  let! formatted := format env transformed (formatting ctx) in
  run! ensureDir env (Path.join [out ctx; Path.dirname filename]) in
  run! writeFile env (Path.join [out ctx; filename]) formatted in
  await (releaseApp env (app appCtx)).

(** The text of the [TypeError] that reading [err.stack] throws when
    [err] is [null] or [undefined]. *)
Definition typeErrorStack (v : Nullish) : string :=
  "TypeError: Cannot read properties of "
  +:+ match v with JsUndefined => "undefined" | JsNull => "null" end
  +:+ " (reading 'stack')".

(** The [catch] block: the message is built before it is printed, and
    building it reads [err.stack] and turns it into text; what that
    throws leaves the block, and nothing is printed. *)
Definition reportError (route : string) (err : Thrown) : Async unit :=
  match err with
  | ThrownValue stackText => log (LogPageError route stackText)
  | ThrownNullish v => throw (ThrownValue (typeErrorStack v))
  | ThrownUnprintable rethrown => throw rethrown
  end.

(** The thrown values that the [catch] block prints. *)
Definition printable (e : Thrown) : bool :=
  match e with ThrownValue _ => true | _ => false end.

(** The outcomes of the body of the [try] block after which the task is
    fulfilled: the body ran to its end, or it threw what the [catch]
    block prints. *)
Definition absorbed {A} (o : Outcome A) : bool :=
  match o with
  | Fulfilled _ => true
  | Rejected e => printable e
  | Pending => false
  end.

(** The default export: one task of the pool. *)
Definition worker {App Head} (env : Collaborators App Head)
           (ctx : WorkerContext) : Async unit :=
  tryCatch (renderPage env ctx) (reportError (route ctx)).

End RenderWorker.

(* ================================================================== *)
(** ** render.ts : the render supervisor *)
(* ================================================================== *)

Module Render.
Import Effects RenderWorker.
Local Open Scope async_scope.

Definition DefaultIncludedRoutes (paths : list string) : list string :=
  List.filter (fun i => negb (JS.includes ":" i) && negb (JS.includes "*" i)) paths.

(** The options read after [Object.assign({}, config.ssgOptions, cliOptions)];
    [None] is an option left out, which then takes its default. *)
Record Options : Type := mkOptions {
  formattingOption : option Formatting;
  includedRoutes : option (list string -> Outcome (list string));
  onFinished : option (Outcome unit);
  dirStyleOption : option DirStyle;
  includeAllRoutes : option bool
}.

Definition defaultOptions : Options :=
  {| formattingOption := None; includedRoutes := None; onFinished := None;
     dirStyleOption := None; includeAllRoutes := None |}.

(** What the supervisor finds around it: the resolved build configuration
    with the options that are only passed on, the built server entry, the
    manifest of the client build, the host, the PWA plugin when there is
    one, and the collaborators of the workers, whose file system is the
    supervisor's as well. *)
Record Setup (App Head : Type) : Type := mkSetup {
  configOutDir : string;
  resolvedOut : string;
  ssgOut : string;
  entryPath : string;
  script : option string;
  mainEntry : Outcome (CreateAppFactory App Head);
  critters : option (Outcome bool);
  mock : option (Outcome unit);
  readManifest : Outcome Manifest;
  inspectorUrl : option string;
  cpus : nat;
  freemem : Z;
  generateSW : option (Outcome unit);
  poolWorkers : Collaborators App Head
}.
Arguments configOutDir {App Head}.
Arguments resolvedOut {App Head}.
Arguments entryPath {App Head}.
Arguments mainEntry {App Head}.
Arguments critters {App Head}.
Arguments mock {App Head}.
Arguments readManifest {App Head}.
Arguments ssgOut {App Head}.
Arguments script {App Head}.
Arguments inspectorUrl {App Head}.
Arguments cpus {App Head}.
Arguments freemem {App Head}.
Arguments generateSW {App Head}.
Arguments poolWorkers {App Head}.

(** [includeAllRoutes ? routesToPaths(routes) : await includedRoutes(routesToPaths(routes))]
    followed by [Array.from(new Set(routesPaths))]. *)
Definition routesPaths (opts : Options)
           (routes : option (list Utils.RouteRecordRaw)) : Async (list string) :=
  let! selected :=
    if default false (includeAllRoutes opts)
    then ret (Utils.routesToPaths routes)
    else match includedRoutes opts with
         | Some custom => await (custom (Utils.routesToPaths routes))
         | None => ret (DefaultIncludedRoutes (Utils.routesToPaths routes))
         end in
  ret (JS.fromArray selected).

(** [1.1 * 1024 ** 3] : the literal is the number nearest to 11/10, the
    power is exact. *)
Definition bytesPerThread : Q :=
  Double.mul (Double.round (11 # 10)) (Double.ofZ (1024 ^ 3)).

(** [os.cpus().length / 2] *)
Definition perCpu (cpus : nat) : Q :=
  Double.div (Double.ofZ (Z.of_nat cpus)) (Double.ofZ 2).

(** [os.freemem() / (1.1 * 1024 ** 3)] *)
Definition perMemory (freemem : Z) : Q :=
  Double.div (Double.ofZ freemem) bytesPerThread.

(** [inspector.url() ? 1 : Math.max(1, Math.floor(Math.min(os.cpus().length / 2,
    os.freemem() / (1.1 * 1024 ** 3))))] : [Math.min], [Math.floor] and
    [Math.max] are exact on numbers. *)
Definition maxThreads (inspectorUrl : option string) (cpus : nat) (freemem : Z) : Z :=
  if JS.truthy inspectorUrl then 1%Z
  else Z.max 1 (Qfloor (Qmin (perCpu cpus) (perMemory freemem))).

(** The pool: tasks start in the order they were submitted while a thread
    is free; a task that never settles holds its thread for good, and a
    task that finds no free thread never starts. *)
Fixpoint runPool {App Head} (env : Collaborators App Head) (free : nat)
         (tasks : list WorkerContext) (w : World) : list (Outcome unit) * World :=
  match tasks with
  | [] => ([], w)
  | task :: rest =>
      match free with
      | O =>
          let '(outcomes, w') := runPool env O rest w in
          (Pending :: outcomes, w')
      | S free' =>
          let '(outcome, w1) := worker env task w in
          let stillFree := match outcome with Pending => free' | _ => free end in
          let '(outcomes, w2) := runPool env stillFree rest w1 in
          (outcome :: outcomes, w2)
      end
  end.

(** [Promise.all] : rejected as soon as one promise is, otherwise settled
    only when every promise is. *)
Fixpoint promiseAll (outcomes : list (Outcome unit)) : Outcome unit :=
  match outcomes with
  | [] => Fulfilled tt
  | Rejected e :: _ => Rejected e
  | Fulfilled _ :: rest => promiseAll rest
  | Pending :: rest =>
      match promiseAll rest with
      | Rejected e => Rejected e
      | _ => Pending
      end
  end.

Definition renderAll {App Head} (env : Collaborators App Head) (threads : Z)
           (tasks : list WorkerContext) : Async unit :=
  fun w =>
    let '(outcomes, w') := runPool env (Z.to_nat threads) tasks w in
    (promiseAll outcomes, w').

(** [await pwaPlugin.generateSW()] *)
Definition regenerateSW (hook : Outcome unit) : Async unit :=
  run! modify (fun w =>
    {| console := console w; files := files w; directories := directories w;
       swRegenerations := S (swRegenerations w);
       finishedCalls := finishedCalls w; timers := timers w |}) in
  await hook.

(** [await onFinished?.()] *)
Definition callOnFinished (hook : option (Outcome unit)) : Async unit :=
  match hook with
  | Some h =>
      run! modify (fun w =>
        {| console := console w; files := files w; directories := directories w;
           swRegenerations := swRegenerations w;
           finishedCalls := S (finishedCalls w); timers := timers w |}) in
      await h
  | None => ret tt
  end.

(** [setTimeout(callback, ms)] : the new timer keeps the event loop alive
    until told otherwise; the handle is its position. *)
Definition setTimeout (callback : TimerAction) (ms : Z) : Async nat :=
  fun w =>
    (Fulfilled (length (timers w)),
     {| console := console w; files := files w; directories := directories w;
        swRegenerations := swRegenerations w;
        finishedCalls := finishedCalls w;
        timers := timers w ++ [mkTimer ms callback true] |}).

(** [timeout.unref()] *)
Definition unref (handle : nat) : Async unit :=
  modify (fun w =>
    {| console := console w; files := files w; directories := directories w;
       swRegenerations := swRegenerations w;
       finishedCalls := finishedCalls w;
       timers := alter (fun t => mkTimer (delayMs t) (action t) false) handle (timers w) |}).

Definition waitInSeconds : Z := 15.

(** A step that is left out, or whose promise is fulfilled. *)
Definition fulfilledIfAny {A} (step : option (Outcome A)) : Prop :=
  match step with
  | Some (Fulfilled _) | None => True
  | Some _ => False
  end.

(** The timer that [render] leaves behind. *)
Definition watchdog : Timer :=
  mkTimer (waitInSeconds * 1000) (ForceExit (LogForceExit waitInSeconds) 0) false.

(** [m] arms the watchdog if it runs to its end, and no timer otherwise. *)
Definition ArmsWatchdogAtEnd (m : Async unit) : Prop :=
  forall w,
    (fst (m w) = Fulfilled tt -> timers (snd (m w)) = timers w ++ [watchdog]) /\
    (fst (m w) <> Fulfilled tt -> timers (snd (m w)) = timers w).

(** [m] calls the completion hook [n] times if it runs to its end, and
    at most [n] times otherwise. *)
Definition CallsOnFinished (n : nat) (m : Async unit) : Prop :=
  forall w,
    (fst (m w) = Fulfilled tt -> finishedCalls (snd (m w)) = finishedCalls w + n) /\
    finishedCalls (snd (m w)) <= finishedCalls w + n.

(** The text of the pattern [/<script type="module" /g]. *)
Definition moduleScript : string :=
  "<script type=" +:+ doubleQuote +:+ "module" +:+ doubleQuote +:+ " ".

Definition rewriteScripts (indexHTML : string) (mode : option string) : string :=
  if negb (JS.truthy mode) || String.eqb (JS.orEmpty mode) "sync"
  then indexHTML
  else JS.replaceAll moduleScript
                     (moduleScript +:+ JS.orEmpty mode +:+ " ") indexHTML.

(** [fs.readFile(path, 'utf-8')] : the content of the file that is there. *)
Definition readFile (path : string) : Async string :=
  fun w =>
    match files w !! path with
    | Some data => (Fulfilled data, w)
    | None =>
        (Rejected (ThrownValue "Error: ENOENT: no such file or directory"), w)
    end.

(** The index template of [render]: the copy in the temporary directory
    when there is one; otherwise the one of the client build, with its
    module scripts rewritten, and copied to the temporary directory.
    [env] tells which writes of [fs.writeFile] fail. *)
Definition loadIndexHTML {App Head} (env : Collaborators App Head)
           (ssgOut out : string) (script : option string) : Async string :=
  tryCatch (readFile (Path.join [ssgOut; "index.html"]))
    (fun _ =>
       let! indexHTML := readFile (Path.join [out; "index.html"]) in
       let indexHTML := rewriteScripts indexHTML script in
       run! writeFile env (Path.join [ssgOut; "index.html"]) indexHTML in
       ret indexHTML).

Definition render {App Head} (env : Setup App Head) (opts : Options) : Async unit :=
  let ssgOut := ssgOut env in
  let outDir := configOutDir env in
  let out := resolvedOut env in
  let script := default "sync" (script env) in
  let formatting := default FormatNone (formattingOption opts) in
  let dirStyle := default Flat (dirStyleOption opts) in
  let ssrEntryPath := entryPath env in
  let! createApp := await (mainEntry env) in
  let! appCtx := await (createApp None) in
  let! routesPaths := routesPaths opts (routes appCtx) in
  let! hasCritters :=
    match critters env with
    | Some found => await found
    | None => ret false
    end in
  run! (if hasCritters : bool then log LogCritters else ret tt) in
  run! match mock env with
       | Some jsdomGlobal => await jsdomGlobal
       | None => ret tt
       end in
  let! ssrManifest := await (readManifest env) in
  let! indexHTML := loadIndexHTML (poolWorkers env) ssgOut out (Some script) in
  let maxThreads := maxThreads (inspectorUrl env) (cpus env) (freemem env) in
  run! log (LogRendering (length routesPaths) maxThreads) in
  run! renderAll (poolWorkers env) maxThreads
         (map (fun route =>
                 mkWorkerContext route dirStyle outDir indexHTML formatting
                                 out ssrEntryPath ssrManifest)
              routesPaths) in
  run! match generateSW env with
       | Some hook =>
           run! log LogRegeneratePWA in
           regenerateSW hook
       | None => ret tt
       end in
  run! log LogBuildFinished in
  run! callOnFinished (onFinished opts) in
  let! timeout :=
    setTimeout (ForceExit (LogForceExit waitInSeconds) 0) (waitInSeconds * 1000) in
  unref timeout.


(** The task that [render] submits to the pool for [route]. *)
Definition pageTask {App Head} (env : Setup App Head) (opts : Options)
           (ssrManifest : Manifest) (indexHTML route : string) : WorkerContext :=
  mkWorkerContext route (default Flat (dirStyleOption opts)) (configOutDir env)
                  indexHTML (default FormatNone (formattingOption opts))
                  (resolvedOut env) (entryPath env) ssrManifest.

(** The index template can be had from the files [fs]: the temporary
    directory holds a copy, or the client build has left one and the copy
    can be written. *)
Definition templateAvailable {App Head} (env : Setup App Head)
           (fs : gmap string string) : Prop :=
  is_Some (fs !! Path.join [ssgOut env; "index.html"]) \/
  (is_Some (fs !! Path.join [resolvedOut env; "index.html"]) /\
   writeFileFails (poolWorkers env) (Path.join [ssgOut env; "index.html"]) = None).

(** Every step of [render] in front of its batch is fulfilled, from the
    world [w]: the application context is [appCtx], the selected paths are
    [paths], the manifest is [manifest]. *)
Record StepsBeforeBatch {App Head} (env : Setup App Head) (opts : Options)
       (w : World) (appCtx : AppContext App Head) (paths : list string)
       (manifest : Manifest) : Prop := mkStepsBeforeBatch {
  entryLoaded :
    exists createApp,
      mainEntry env = Fulfilled createApp /\ createApp None = Fulfilled appCtx;
  pathsSelected : fst (routesPaths opts (routes appCtx) w) = Fulfilled paths;
  crittersSettled : fulfilledIfAny (critters env);
  mockSettled : fulfilledIfAny (mock env);
  manifestRead : readManifest env = Fulfilled manifest;
  templateThere : templateAvailable env (files w)
}.

End Render.

(* ================================================================== *)
(** ** A small site, used to run the model *)
(* ================================================================== *)

Module Site.
Import Effects RenderWorker Render.

Definition routeTable : list Utils.RouteRecordRaw :=
  [Utils.Route (Some "/broken") None; Utils.Route (Some "/ok") None].

Definition template : string := "<body>" +:+ mountPoint +:+ "</body>".

Definition context : AppContext unit unit :=
  mkAppContext tt None None (Some "{}") (Some routeTable).

(** The application factory: [broken] is what it comes to for the route
    [/broken]. *)
Definition createApp (broken : Outcome (AppContext unit unit))
  : CreateAppFactory unit unit :=
  fun routePath =>
    match routePath with
    | Some r => if String.eqb r "/broken" then broken else Fulfilled context
    | None => Fulfilled context
    end.

Definition workers (broken : Outcome (AppContext unit unit))
  : Collaborators unit unit :=
  {| importEntry := fun _ => Fulfilled (createApp broken);
     renderToString := fun _ => Fulfilled ("<h1>page</h1>", []);
     domPipeline := fun html _ _ _ => Fulfilled html;
     minifier := fun html => Fulfilled html;
     prettier := fun html => Fulfilled html;
     ensureDirFails := fun _ => None;
     writeFileFails := fun _ => None;
     releaseApp := fun _ => Fulfilled tt |}.

(** The site after the client build: the output directory holds the
    index template, the temporary directory no copy of it yet. *)
Definition world : World :=
  {| console := []; files := {["/site/dist/index.html" := template]};
     directories := ∅; swRegenerations := 0; finishedCalls := 0; timers := [] |}.

Definition setup (broken : Outcome (AppContext unit unit))
           (pwa : option (Outcome unit)) : Setup unit unit :=
  {| configOutDir := "dist";
     resolvedOut := "/site/dist";
     ssgOut := "/site/.vite-ssg-temp";
     entryPath := "/site/.vite-ssg-temp/main.mjs";
     script := None;
     mainEntry := Fulfilled (createApp broken);
     critters := None;
     mock := None;
     readManifest := Fulfilled ∅;
     inspectorUrl := None;
     cpus := 4;
     freemem := 8 * 1024 ^ 3;
     generateSW := pwa;
     poolWorkers := workers broken |}.

(** The same site before the client build has left a manifest. *)
Definition setupWithoutManifest : Setup unit unit :=
  {| configOutDir := "dist";
     resolvedOut := "/site/dist";
     ssgOut := "/site/.vite-ssg-temp";
     entryPath := "/site/.vite-ssg-temp/main.mjs";
     script := None;
     mainEntry := Fulfilled (createApp (Fulfilled context));
     critters := None;
     mock := None;
     readManifest := Rejected (ThrownValue "Error: ENOENT: no such file or directory");
     inspectorUrl := None;
     cpus := 4;
     freemem := 8 * 1024 ^ 3;
     generateSW := None;
     poolWorkers := workers (Fulfilled context) |}.

(** The output directory right after the client build: the index
    template and nothing in the temporary directory yet. *)
Definition builtTemplate : string :=
  "<head>" +:+ moduleScript +:+ "src='/main.js'></script></head><body>"
  +:+ mountPoint +:+ "</body>".

Definition afterClientBuild : World :=
  {| console := []; files := {["/site/dist/index.html" := builtTemplate]};
     directories := ∅; swRegenerations := 0; finishedCalls := 0; timers := [] |}.

(** Options with a completion hook and nothing else. *)
Definition options : Options :=
  mkOptions None None (Some (Fulfilled tt)) None None.




(** The task of the pool for a route of the site. *)
Definition task (route : string) : WorkerContext :=
  mkWorkerContext route Flat "dist" template FormatNone "/site/dist"
                  "/site/.vite-ssg-temp/main.mjs" ∅.

Definition okPage : string :=
  "<body>" +:+ mountOpen +:+ "<h1>page</h1></div>" +:+ newline
  +:+ "<script>window.__INITIAL_STATE__={}</script></body>".

End Site.

(* ================================================================== *)
(** * Properties *)
(* ================================================================== *)

(** ** Strings *)

Section StringFacts.

Lemma append_empty_r (s : string) : s +:+ "" = s.
Proof. induction s as [|c s IH]; simpl; [reflexivity | now rewrite IH]. Qed.

Lemma append_assoc (a b c : string) : (a +:+ b) +:+ c = a +:+ (b +:+ c).
Proof. induction a as [|x a IH]; simpl; [reflexivity | now rewrite IH]. Qed.

Lemma stripPrefix_spec (p s r : string) :
  JS.stripPrefix p s = Some r <-> s = p +:+ r.
Proof.
  revert s; induction p as [|a p IH]; intros s; simpl.
  - split; [intros [= ->]; reflexivity | intros ->; reflexivity].
  - destruct s as [|b s]; [split; discriminate|].
    destruct (Ascii.eqb_spec a b) as [->|Hne].
    + rewrite IH. split; [intros ->; reflexivity | intros [= ->]; reflexivity].
    + split; [discriminate | intros [= E _]; now symmetry in E].
Qed.

Lemma stripPrefix_None (p s : string) :
  JS.stripPrefix p s = None <-> forall r, s <> p +:+ r.
Proof.
  split.
  - intros HN r E. apply stripPrefix_spec in E. congruence.
  - intros H. destruct (JS.stripPrefix p s) as [r|] eqn:E; [|reflexivity].
    apply stripPrefix_spec in E. now destruct (H r).
Qed.

Lemma prefix_spec (p s : string) :
  String.prefix p s = true <-> exists r, s = p +:+ r.
Proof.
  revert s; induction p as [|a p IH]; intros s; simpl.
  - split; [intros _; now exists s | intros _; now destruct s].
  - destruct s as [|b s].
    + split; [discriminate | intros [r Hr]; discriminate].
    + simpl. destruct (ascii_dec a b) as [->|Hne].
      * rewrite IH. split; intros [r Hr]; exists r; [now rewrite Hr | now injection Hr].
      * split; [discriminate | intros [r [= E _]]; now symmetry in E].
Qed.

Lemma includes_unfold (p s : string) :
  JS.includes p s =
  if String.prefix p s then true
  else match s with
       | EmptyString => false
       | String _ s' => JS.includes p s'
       end.
Proof. now destruct s. Qed.

Lemma splitFirst_unfold (p s : string) :
  JS.splitFirst p s =
  match JS.stripPrefix p s with
  | Some rest => Some (EmptyString, rest)
  | None =>
      match s with
      | EmptyString => None
      | String c s' =>
          match JS.splitFirst p s' with
          | Some (before, after) => Some (String c before, after)
          | None => None
          end
      end
  end.
Proof. now destruct s. Qed.

(** [includes] is substring containment. *)
Lemma includes_spec (p s : string) :
  JS.includes p s = true <-> exists a b, s = a +:+ p +:+ b.
Proof.
  induction s as [|c s IH]; rewrite includes_unfold.
  - destruct (String.prefix p "") eqn:E.
    + split; [intros _|reflexivity].
      apply prefix_spec in E as [r Hr]. now exists "", r.
    + split; [discriminate|]. intros (a & b & H).
      destruct a; simpl in H; [|discriminate].
      assert (String.prefix p "" = true) by (apply prefix_spec; now exists b).
      congruence.
  - destruct (String.prefix p (String c s)) eqn:E.
    + split; [intros _|reflexivity].
      apply prefix_spec in E as [r Hr]. now exists "", r.
    + rewrite IH. split.
      * intros (a & b & ->). now exists (String c a), b.
      * intros (a & b & H). destruct a as [|x a]; simpl in H.
        -- assert (String.prefix p (String c s) = true)
             by (apply prefix_spec; now exists b).
           congruence.
        -- injection H as _ ->. now exists a, b.
Qed.

Lemma splitFirst_Some (p s before after : string) :
  JS.splitFirst p s = Some (before, after) -> s = before +:+ p +:+ after.
Proof.
  revert before; induction s as [|c s IH]; intros before;
    rewrite splitFirst_unfold.
  - destruct (JS.stripPrefix p "") eqn:E; [|discriminate].
    intros [= <- <-]. now apply stripPrefix_spec in E.
  - destruct (JS.stripPrefix p (String c s)) eqn:E.
    + intros [= <- <-]. now apply stripPrefix_spec in E.
    + destruct (JS.splitFirst p s) as [[b a]|]; [|discriminate].
      intros [= <- <-]. simpl. now rewrite (IH b eq_refl).
Qed.

Lemma splitFirst_None (p s : string) :
  JS.splitFirst p s = None <-> forall a b, s <> a +:+ p +:+ b.
Proof.
  induction s as [|c s IH]; rewrite splitFirst_unfold.
  - destruct (JS.stripPrefix p "") eqn:E.
    + split; [discriminate|]. intros H.
      apply stripPrefix_spec in E. now destruct (H "" s).
    + split; [|reflexivity]. intros _ a b H.
      destruct a; simpl in H; [|discriminate].
      apply stripPrefix_spec in H. congruence.
  - destruct (JS.stripPrefix p (String c s)) eqn:E.
    + split; [discriminate|]. intros H.
      apply stripPrefix_spec in E. now destruct (H "" s0).
    + destruct (JS.splitFirst p s) as [[b a]|] eqn:E2.
      * split; [discriminate|]. intros H.
        apply splitFirst_Some in E2. destruct (H (String c b) a).
        simpl. now rewrite E2.
      * split; [|reflexivity]. intros _ a b H.
        destruct a as [|x a]; simpl in H.
        -- apply stripPrefix_spec in H. congruence.
        -- injection H as _ H. destruct IH as [IH _]. now apply (IH eq_refl a b).
Qed.

End StringFacts.

(** ** Sets in insertion order *)

Section JsSetFacts.

Lemma has_In (x : string) (s : JS.JsSet) : JS.has x s = true <-> In x s.
Proof.
  unfold JS.has. rewrite existsb_exists. split.
  - intros (y & Hy & E). apply String.eqb_eq in E. now subst.
  - intros H. exists x. split; [assumption | apply String.eqb_refl].
Qed.

Lemma add_In (x y : string) (s : JS.JsSet) :
  In x (JS.add y s) <-> x = y \/ In x s.
Proof.
  unfold JS.add. destruct (JS.has y s) eqn:E.
  - apply has_In in E. split; [now right | intros [->|H]; assumption].
  - rewrite in_app_iff. simpl. split.
    + intros [H|[H|[]]]; [now right | now left].
    + intros [->|H]; [right; now left | now left].
Qed.

Lemma add_NoDup (y : string) (s : JS.JsSet) :
  List.NoDup s -> List.NoDup (JS.add y s).
Proof.
  intros Hs. unfold JS.add. destruct (JS.has y s) eqn:E; [assumption|].
  assert (~ In y s) as Hy by (rewrite <- has_In; congruence).
  clear E. induction Hs as [|a l Ha Hl IH]; simpl.
  - constructor; [intros [] | constructor].
  - constructor.
    + rewrite in_app_iff. simpl. intros [H|[H|[]]]; [easy|].
      apply Hy. now left.
    + apply IH. intros H. apply Hy. now right.
Qed.

Lemma addAll_In (xs : list string) (s : JS.JsSet) (x : string) :
  In x (fold_left (fun s x => JS.add x s) xs s) <-> In x s \/ In x xs.
Proof.
  revert s; induction xs as [|a xs IH]; intros s; simpl.
  - tauto.
  - rewrite IH, add_In. intuition.
Qed.

Lemma addAll_NoDup (xs : list string) (s : JS.JsSet) :
  List.NoDup s -> List.NoDup (fold_left (fun s x => JS.add x s) xs s).
Proof.
  revert s; induction xs as [|a xs IH]; intros s Hs; simpl;
    [assumption | apply IH, add_NoDup, Hs].
Qed.

Lemma fromArray_In (xs : list string) (x : string) :
  In x (JS.fromArray xs) <-> In x xs.
Proof. unfold JS.fromArray. rewrite addAll_In. simpl. tauto. Qed.

Lemma fromArray_NoDup (xs : list string) : List.NoDup (JS.fromArray xs).
Proof. apply addAll_NoDup. constructor. Qed.

End JsSetFacts.

(** ** Route enumeration *)

Section RouteFacts.
Import Utils.

Lemma loopBody_unfold (prefix : string) (rp : option string)
      (rc : option (list RouteRecordRaw)) (paths : JS.JsSet) :
  loopBody prefix (Route rp rc) paths =
  let paths1 := match emitted prefix (Route rp rc) with
                | Some p => JS.add p paths
                | None => paths
                end in
  match rc with
  | Some cs =>
      fold_left (fun acc r => loopBody (childPrefix prefix (Route rp rc)) r acc)
                cs paths1
  | None => paths1
  end.
Proof.
  cbv zeta. unfold emitted.
  change (routePath (Route rp rc)) with rp.
  set (q := childPrefix prefix (Route rp rc)).
  set (paths1 := match (if JS.truthy rp
                        then Some (joinPrefix prefix (JS.orEmpty rp)) else None)
                 with Some p => JS.add p paths | None => paths end).
  assert (E : (if JS.truthy rp
               then JS.add (joinPrefix prefix (JS.orEmpty rp)) paths
               else paths) = paths1)
    by (subst paths1; now destruct (JS.truthy rp)).
  destruct rc as [cs|]; cbn [loopBody]; rewrite E; [|reflexivity].
  fold q. generalize paths1 as acc. clear E.
  induction cs as [|c cs IH]; intros acc; [reflexivity|]. apply IH.
Qed.


Lemma emits_unfold (prefix : string) (r : RouteRecordRaw) (x : string) :
  emits prefix r x <->
  emitted prefix r = Some x \/
  exists cs c, routeChildren r = Some cs /\ In c cs /\
               emits (childPrefix prefix r) c x.
Proof.
  split.
  - intros (q & n & Hv & He). inversion Hv; subst.
    + now left.
    + right. exists cs, c. repeat split; try assumption. now exists q, n.
  - intros [He | (cs & c & Hc & Hin & q & n & Hv & He)].
    + exists prefix, r. split; [constructor | assumption].
    + exists q, n. split; [|assumption]. now apply visits_below with cs c.
Qed.

Lemma fold_loopBody_spec (q : string) (cs : list RouteRecordRaw) :
  List.Forall (fun c => forall q acc x,
                   In x (loopBody q c acc) <-> In x acc \/ emits q c x) cs ->
  forall acc x,
    In x (fold_left (fun acc r => loopBody q r acc) cs acc) <->
    In x acc \/ exists c, In c cs /\ emits q c x.
Proof.
  induction 1 as [|c cs Hc _ IH]; intros acc x; simpl.
  - split; [now left | intros [H | (c & [] & _)]; assumption].
  - rewrite IH, Hc. split.
    + intros [[H|H]|(c' & Hin & H)].
      * now left.
      * right. exists c. split; [now left | assumption].
      * right. exists c'. split; [now right | assumption].
    + intros [H|(c' & [->|Hin] & H)].
      * left. now left.
      * left. now right.
      * right. now exists c'.
Qed.

(** The loop body adds exactly what the nodes it visits emit. *)
Lemma loopBody_spec (r : RouteRecordRaw) :
  forall q acc x, In x (loopBody q r acc) <-> In x acc \/ emits q r x.
Proof.
  induction r as [rp rc IH] using RouteRecordRaw_ind. intros q acc x.
  rewrite loopBody_unfold, emits_unfold. cbv zeta.
  set (r := Route rp rc).
  assert (Hfirst : In x (match emitted q r with
                         | Some p => JS.add p acc
                         | None => acc
                         end) <-> In x acc \/ emitted q r = Some x).
  { destruct (emitted q r) as [p|].
    - rewrite add_In. split.
      + intros [->|H]; [now right | now left].
      + intros [H|[= ->]]; [now right | now left].
    - split; [now left | intros [H|H]; [assumption | discriminate]]. }
  destruct rc as [cs|].
  - rewrite (fold_loopBody_spec _ cs (IH cs eq_refl)), Hfirst. split.
    + intros [[H|H]|(c & Hin & H)].
      * now left.
      * right. now left.
      * right. right. now exists cs, c.
    + intros [H|[H|(cs' & c & [= <-] & Hin & H)]].
      * left. now left.
      * left. now right.
      * right. now exists c.
  - rewrite Hfirst. split.
    + intros [H|H]; [now left | right; now left].
    + intros [H|[H|(cs' & c & Hc & _)]]; [now left | now right | discriminate].
Qed.

(** [getPaths] adds exactly what the nodes of its trees emit. *)
Lemma getPaths_spec (routes : list RouteRecordRaw) (prefix : option string)
      (paths : JS.JsSet) (x : string) :
  In x (getPaths routes prefix paths) <->
  In x paths \/
  exists r, In r routes /\
            emits (JS.removeTrailingSlash (JS.orEmpty prefix)) r x.
Proof.
  unfold getPaths. apply fold_loopBody_spec.
  apply List.Forall_forall. intros r _. apply loopBody_spec.
Qed.

Lemma fold_loopBody_NoDup (cs : list RouteRecordRaw) :
  List.Forall (fun c => forall q acc,
                   List.NoDup acc -> List.NoDup (loopBody q c acc)) cs ->
  forall q acc,
    List.NoDup acc ->
    List.NoDup (fold_left (fun acc r => loopBody q r acc) cs acc).
Proof.
  induction 1 as [|c cs Hc _ IH]; intros q acc Hacc; simpl;
    [assumption | apply IH, Hc, Hacc].
Qed.

Lemma loopBody_NoDup (r : RouteRecordRaw) :
  forall q acc, List.NoDup acc -> List.NoDup (loopBody q r acc).
Proof.
  induction r as [rp rc IH] using RouteRecordRaw_ind. intros q acc Hacc.
  rewrite loopBody_unfold. cbv zeta.
  assert (H1 : List.NoDup (match emitted q (Route rp rc) with
                           | Some p => JS.add p acc
                           | None => acc
                           end))
    by (destruct (emitted q (Route rp rc)); [now apply add_NoDup | assumption]).
  destruct rc as [cs|]; [|assumption].
  apply fold_loopBody_NoDup; [apply (IH cs eq_refl) | assumption].
Qed.

Lemma routesToPaths_NoDup (routes : option (list RouteRecordRaw)) :
  List.NoDup (routesToPaths routes).
Proof.
  destruct routes as [rs|]; simpl.
  - unfold getPaths. apply fold_loopBody_NoDup; [|constructor].
    apply List.Forall_forall. intros r _. apply loopBody_NoDup.
  - constructor; [intros [] | constructor].
Qed.

End RouteFacts.

Section RouteClaims.
Import Utils Effects.

Lemma visits_child (a : string) (root : RouteRecordRaw) (q : string)
      (parent child : RouteRecordRaw) (cs : list RouteRecordRaw) :
  visits a root q parent ->
  routeChildren parent = Some cs ->
  In child cs ->
  visits a root (childPrefix q parent) child.
Proof.
  induction 1 as [q r | q r cs' c q' n Hcs Hin _ IH]; intros Hc Hchild.
  - apply visits_below with cs child; [assumption | assumption | constructor].
  - apply visits_below with cs' c; [assumption | assumption | now apply IH].
Qed.

Lemma truthy_Some (p : string) : p <> "" -> JS.truthy (Some p) = true.
Proof.
  intros H. simpl. destruct (String.eqb_spec p ""); [contradiction | reflexivity].
Qed.

(** C4, as amended.  A child with a non-empty path, below a parent with a
    non-empty path that is processed under prefix [q]: the parent's entry
    is [joinPrefix q pp]; the child's entry is its own path when that path
    starts with a slash or when nothing is left of the parent's entry
    once one trailing slash is taken off, and otherwise what is left,
    one slash, and the child's path. *)
Theorem child_path_resolution
        (routes : list RouteRecordRaw) (root parent child : RouteRecordRaw)
        (cs : list RouteRecordRaw) (q pp cp : string) :
  In root routes ->
  visits "" root q parent ->
  routePath parent = Some pp -> pp <> "" ->
  routeChildren parent = Some cs -> In child cs ->
  routePath child = Some cp -> cp <> "" ->
  let stripped := JS.removeTrailingSlash (joinPrefix q pp) in
  In (joinPrefix q pp) (routesToPaths (Some routes)) /\
  In (if JS.startsWith "/" cp then cp
      else if String.eqb stripped "" then cp
      else stripped +:+ "/" +:+ cp)
     (routesToPaths (Some routes)).
Proof.
  intros Hroot Hvisit Hpp Hne Hcs Hchild Hcp Hcne stripped.
  unfold routesToPaths. split; apply getPaths_spec; right; exists root;
    (split; [assumption|]).
  - exists q, parent. split; [exact Hvisit|].
    unfold emitted. now rewrite Hpp, truthy_Some.
  - exists (childPrefix q parent), child. split.
    + now apply visits_child with cs.
    + unfold emitted. rewrite Hcp, truthy_Some by assumption. f_equal.
      unfold childPrefix, nodePath. rewrite Hpp, truthy_Some by assumption.
      simpl JS.orEmpty. fold stripped. unfold joinPrefix at 1.
      destruct (JS.startsWith "/" cp), (String.eqb stripped ""); reflexivity.
Qed.

(** The parent [/docs] with the child [page] gives [/docs/page]. *)
Lemma child_path_resolution_docs_page :
  In "/docs/page"
     (routesToPaths
        (Some [Route (Some "/docs") (Some [Route (Some "page") None])])).
Proof.
  pose (child := Route (Some "page") None).
  pose (parent := Route (Some "/docs") (Some [child])).
  refine (proj2 (child_path_resolution [parent] parent parent child [child]
                   "" "/docs" "page" _ _ _ _ _ _ _ _)).
  - now left.
  - constructor.
  - reflexivity.
  - discriminate.
  - reflexivity.
  - now left.
  - reflexivity.
  - discriminate.
Defined.

(** Against C4 as stated: below the parent [/], the child [about] is
    entered as [about]; the parent's path without its trailing slash,
    one slash, and the child's path would be [/about]. *)
Lemma child_of_root_parent_has_no_slash :
  let routes := Some [Route (Some "/") (Some [Route (Some "about") None])] in
  routesToPaths routes = ["/"; "about"] /\
  JS.removeTrailingSlash "/" +:+ "/" +:+ "about" = "/about" /\
  ~ In "/about" (routesToPaths routes).
Proof.
  cbv zeta. repeat split.
  intros [H|[H|[]]]; discriminate.
Qed.

Lemma childPrefix_pathless (q : string) (node : RouteRecordRaw) :
  JS.truthy (routePath node) = false -> childPrefix q node = "".
Proof.
  intros H. unfold childPrefix, nodePath. rewrite H.
  destruct (routePath node) as [p|]; [|reflexivity].
  simpl in H. apply negb_false_iff, String.eqb_eq in H. now subst.
Qed.

(** Below a node without a path, wherever it sits in the tree, a child is
    entered under its own path as it is written. *)
Lemma child_of_pathless_node_keeps_own_path
      (routes : list RouteRecordRaw) (root node child : RouteRecordRaw)
      (cs : list RouteRecordRaw) (q cp : string) :
  In root routes ->
  visits "" root q node ->
  JS.truthy (routePath node) = false ->
  routeChildren node = Some cs -> In child cs ->
  routePath child = Some cp -> cp <> "" ->
  In cp (routesToPaths (Some routes)).
Proof.
  intros Hroot Hvisit Hnode Hcs Hchild Hcp Hne.
  unfold routesToPaths. apply getPaths_spec. right. exists root.
  split; [assumption|]. exists (childPrefix q node), child. split.
  - now apply visits_child with cs.
  - unfold emitted. rewrite Hcp, truthy_Some by assumption.
    now rewrite childPrefix_pathless.
Qed.

(** C5, at the failing input.  A node without a path (or with the empty
    path) between [/docs] and [page]: the child is entered as [page], not
    as [/docs/page], because the children of such a node are processed
    under the empty prefix whatever the prefix of the node was. *)
Theorem pathless_node_resets_prefix :
  routesToPaths
    (Some [Route (Some "/docs")
             (Some [Route None (Some [Route (Some "page") None])])])
  = ["/docs"; "page"] /\
  routesToPaths
    (Some [Route (Some "/docs")
             (Some [Route (Some "") (Some [Route (Some "page") None])])])
  = ["/docs"; "page"] /\
  forall (q : string) (cs : option (list RouteRecordRaw)),
    childPrefix q (Route None cs) = "" /\ childPrefix q (Route (Some "") cs) = "".
Proof. repeat split. Qed.

End RouteClaims.

Section DispatchClaims.
Import Utils Effects.

Lemma DefaultIncludedRoutes_static (paths : list string) (p : string) :
  In p (Render.DefaultIncludedRoutes paths) ->
  In p paths /\ JS.includes ":" p = false /\ JS.includes "*" p = false.
Proof.
  unfold Render.DefaultIncludedRoutes. rewrite filter_In.
  intros [Hin H]. apply andb_prop in H as [H1 H2].
  apply negb_true_iff in H1, H2. auto.
Qed.

(** C3, as amended.  Whatever the options, a list that is dispatched has
    no duplicates.  With the bypass flag it is the deduplicated
    enumeration.  Without the flag and without a custom inclusion
    predicate, no entry of it contains a colon or an asterisk. *)
Theorem dispatched_paths_unique_and_static
        (opts : Render.Options) (routes : option (list RouteRecordRaw))
        (w : World) :
  (forall l w', Render.routesPaths opts routes w = (Fulfilled l, w') ->
                List.NoDup l) /\
  (default false (Render.includeAllRoutes opts) = true ->
   Render.routesPaths opts routes w
   = (Fulfilled (JS.fromArray (routesToPaths routes)), w)) /\
  (default false (Render.includeAllRoutes opts) = false ->
   Render.includedRoutes opts = None ->
   exists l, Render.routesPaths opts routes w = (Fulfilled l, w) /\
             List.Forall (fun p => JS.includes ":" p = false /\
                                   JS.includes "*" p = false) l).
Proof.
  unfold Render.routesPaths, bind, ret, await. repeat split.
  - intros l w'.
    destruct (default false (Render.includeAllRoutes opts)).
    + intros [= <- _]. apply fromArray_NoDup.
    + destruct (Render.includedRoutes opts) as [custom|].
      * destruct (custom (routesToPaths routes)); [|discriminate..].
        intros [= <- _]. apply fromArray_NoDup.
      * intros [= <- _]. apply fromArray_NoDup.
  - intros ->. reflexivity.
  - intros -> ->. eexists. split; [reflexivity|].
    apply List.Forall_forall. intros p Hp.
    apply fromArray_In, DefaultIncludedRoutes_static in Hp. tauto.
Qed.

Lemma dispatched_paths_unique_and_static_witness :
  let routes := Some [Route (Some "/a") (Some [Route (Some ":id") None]);
                      Route (Some "/a") None;
                      Route (Some "/:all(.*)") None] in
  exists l,
    Render.routesPaths Render.defaultOptions routes emptyWorld
    = (Fulfilled l, emptyWorld) /\
    List.Forall (fun p => JS.includes ":" p = false /\
                          JS.includes "*" p = false) l.
Proof.
  cbv zeta.
  apply (proj2 (proj2 (dispatched_paths_unique_and_static
                         Render.defaultOptions _ emptyWorld)));
    reflexivity.
Defined.

(** Against C3 as stated: the bypass flag is not set, a custom inclusion
    predicate keeps every path, and a path with a parameter marker is
    dispatched. *)
Lemma custom_predicate_keeps_dynamic_route :
  let opts := Render.mkOptions None (Some (fun paths => Fulfilled paths))
                               None None None in
  let routes := Some [Route (Some "/user/:id") None] in
  default false (Render.includeAllRoutes opts) = false /\
  Render.routesPaths opts routes emptyWorld
  = (Fulfilled ["/user/:id"], emptyWorld) /\
  JS.includes ":" "/user/:id" = true.
Proof. cbv zeta. repeat split. Qed.

End DispatchClaims.

(** ** The spliced document *)

Section RenderHTMLClaims.
Import RenderWorker.

Lemma getSubstitution_unfold (m b a template : string) :
  JS.getSubstitution m b a template =
  match template with
  | EmptyString => EmptyString
  | String c t =>
      if Ascii.eqb c "$" then
        match t with
        | EmptyString => String c EmptyString
        | String d rest =>
            if Ascii.eqb d "$" then String "$" (JS.getSubstitution m b a rest)
            else if Ascii.eqb d "&" then m +:+ JS.getSubstitution m b a rest
            else if Ascii.eqb d "`" then b +:+ JS.getSubstitution m b a rest
            else if Ascii.eqb d "'" then a +:+ JS.getSubstitution m b a rest
            else String c (JS.getSubstitution m b a t)
        end
      else String c (JS.getSubstitution m b a t)
  end.
Proof. now destruct template. Qed.

(** A pattern-free text in front of a text that starts with an ordinary
    character is copied as it is. *)
Lemma getSubstitution_patternFree (m b a x : string) (d : ascii) (y : string) :
  JS.patternFree x = true ->
  JS.patternChar d = false ->
  JS.getSubstitution m b a (x +:+ String d y)
  = x +:+ JS.getSubstitution m b a (String d y).
Proof.
  intros Hx Hd. induction x as [|c t IH]; [reflexivity|].
  change (String c t +:+ String d y) with (String c (t +:+ String d y)).
  rewrite getSubstitution_unfold.
  change (String c t +:+ JS.getSubstitution m b a (String d y))
    with (String c (t +:+ JS.getSubstitution m b a (String d y))).
  simpl in Hx. destruct (Ascii.eqb c "$") eqn:Ec.
  - destruct t as [|e rest].
    + simpl. unfold JS.patternChar in Hd.
      apply orb_false_elim in Hd as [Hd H4].
      apply orb_false_elim in Hd as [Hd H3].
      apply orb_false_elim in Hd as [H1 H2].
      now rewrite H1, H2, H3, H4.
    + apply andb_prop in Hx as [He Hx].
      change (String e rest +:+ String d y) with (String e (rest +:+ String d y)).
      unfold JS.patternChar in He. apply negb_true_iff in He.
      apply orb_false_elim in He as [He H4].
      apply orb_false_elim in He as [He H3].
      apply orb_false_elim in He as [H1 H2].
      rewrite H1, H2, H3, H4. f_equal. now apply IH.
  - f_equal. now apply IH.
Qed.

(** [splitFirst] finds the first occurrence. *)
Lemma splitFirst_first (p s before after : string) :
  s = before +:+ p +:+ after ->
  (forall b a, s = b +:+ p +:+ a -> String.length before <= String.length b) ->
  JS.splitFirst p s = Some (before, after).
Proof.
  revert s; induction before as [|c before IH]; intros s Hs Hmin;
    rewrite splitFirst_unfold.
  - simpl in Hs. apply stripPrefix_spec in Hs. now rewrite Hs.
  - destruct (JS.stripPrefix p s) as [r|] eqn:E.
    + apply stripPrefix_spec in E. specialize (Hmin "" r E). simpl in Hmin. lia.
    + subst s. simpl. rewrite (IH (before +:+ p +:+ after) eq_refl); [reflexivity|].
      intros b a Hba. specialize (Hmin (String c b) a). simpl in Hmin.
      rewrite Hba in Hmin. specialize (Hmin eq_refl). lia.
Qed.

Lemma splitFirst_minimal (p s before after : string) :
  JS.splitFirst p s = Some (before, after) ->
  forall b a, s = b +:+ p +:+ a -> String.length before <= String.length b.
Proof.
  revert before; induction s as [|c s IH]; intros before;
    rewrite splitFirst_unfold.
  - destruct (JS.stripPrefix p "") eqn:E; [|discriminate].
    intros [= <- _] b a _. simpl. lia.
  - destruct (JS.stripPrefix p (String c s)) eqn:E.
    + intros [= <- _] b a _. simpl. lia.
    + destruct (JS.splitFirst p s) as [[b0 a0]|] eqn:E2; [|discriminate].
      intros [= <- <-] b a Hs. destruct b as [|x b]; simpl in Hs.
      * apply stripPrefix_spec in Hs. congruence.
      * injection Hs as _ Hs. specialize (IH b0 eq_refl b a Hs). simpl. lia.
Qed.

Lemma replacement_expands (m b a appHTML : string) (initialState : option string) :
  JS.patternFree appHTML = true ->
  JS.patternFree (JS.orEmpty initialState) = true ->
  JS.getSubstitution m b a
    (mountOpen +:+ appHTML +:+ "</div>" +:+ stateScript initialState)
  = mountOpen +:+ appHTML +:+ "</div>" +:+ stateScript initialState.
Proof.
  intros Happ Hstate.
  assert (Hopen : forall y, JS.getSubstitution m b a (mountOpen +:+ y)
                            = mountOpen +:+ JS.getSubstitution m b a y)
    by reflexivity.
  rewrite Hopen. f_equal.
  destruct initialState as [st|]; simpl JS.orEmpty in Hstate.
  - change ("</div>" +:+ stateScript (Some st))
      with (String "<" ("/div>" +:+ newline
                        +:+ "<script>window.__INITIAL_STATE__="
                        +:+ st +:+ String "<" "/script>")).
    rewrite getSubstitution_patternFree by (assumption || reflexivity).
    f_equal.
    assert (Hmid : forall y,
               JS.getSubstitution m b a
                 (String "<" ("/div>" +:+ newline
                              +:+ "<script>window.__INITIAL_STATE__=" +:+ y))
               = String "<" ("/div>" +:+ newline
                             +:+ "<script>window.__INITIAL_STATE__="
                             +:+ JS.getSubstitution m b a y))
      by reflexivity.
    rewrite Hmid. do 2 f_equal.
    now rewrite getSubstitution_patternFree by (assumption || reflexivity).
  - change ("</div>" +:+ stateScript None) with (String "<" "/div>").
    now rewrite getSubstitution_patternFree by (assumption || reflexivity).
Qed.

(** C7, as amended.  When the template contains the mount point, its
    first occurrence is replaced by the rendered mount element, and a
    truthy initial state adds one inline script right behind that element;
    without an initial state nothing follows the element.  The fragment
    and the state text are free of replacement patterns. *)
Theorem initial_state_script_follows_mount_point
        (indexHTML before after appHTML : string) (initialState : option string) :
  indexHTML = before +:+ mountPoint +:+ after ->
  (forall b a, indexHTML = b +:+ mountPoint +:+ a ->
               String.length before <= String.length b) ->
  JS.patternFree appHTML = true ->
  JS.patternFree (JS.orEmpty initialState) = true ->
  renderHTML indexHTML appHTML initialState
  = before +:+ mountOpen +:+ appHTML +:+ "</div>"
    +:+ match initialState with
        | Some st => newline +:+ "<script>window.__INITIAL_STATE__="
                     +:+ st +:+ "</script>"
        | None => ""
        end
    +:+ after.
Proof.
  intros Hsplit Hfirst Happ Hstate. unfold renderHTML, JS.replace.
  rewrite (splitFirst_first _ _ _ _ Hsplit Hfirst).
  rewrite replacement_expands by assumption.
  f_equal. rewrite !append_assoc. reflexivity.
Qed.

Lemma initial_state_script_follows_mount_point_witness :
  renderHTML ("<body>" +:+ mountPoint +:+ "</body>") "<h1>Hi</h1>" (Some "{}")
  = "<body>" +:+ mountOpen +:+ "<h1>Hi</h1>" +:+ "</div>"
    +:+ (newline +:+ "<script>window.__INITIAL_STATE__=" +:+ "{}" +:+ "</script>")
    +:+ "</body>"
  /\ JS.includes "<script>window.__INITIAL_STATE__="
       (renderHTML ("<body>" +:+ mountPoint +:+ "</body>") "<h1>Hi</h1>" None)
     = false.
Proof.
  split; [|reflexivity].
  apply (initial_state_script_follows_mount_point
           ("<body>" +:+ mountPoint +:+ "</body>") "<body>" "</body>"
           "<h1>Hi</h1>" (Some "{}")); try reflexivity.
  exact (splitFirst_minimal mountPoint ("<body>" +:+ mountPoint +:+ "</body>")
                            "<body>" "</body>" eq_refl).
Defined.

(** Against C7 as stated: an initial state is produced, the template
    spells the mount point with single quotes, and the page has no
    script at all. *)
Lemma state_script_lost_without_mount_point :
  let template := "<body><div id='app'></div></body>" in
  renderHTML template "<h1>Hi</h1>" (Some "{}") = template /\
  JS.includes "<script>" (renderHTML template "<h1>Hi</h1>" (Some "{}")) = false.
Proof. cbv zeta. split; reflexivity. Qed.

(** A state text with a replacement pattern does not arrive as it is:
    [$$] comes out as one dollar and [$&] as the mount point. *)
Example state_text_with_pattern_is_rewritten :
  renderHTML mountPoint "" (Some "{price:'$$9',tag:'$&'}")
  = mountOpen +:+ "</div>" +:+ newline
    +:+ "<script>window.__INITIAL_STATE__={price:'$9',tag:'"
    +:+ mountPoint +:+ "'}</script>".
Proof. reflexivity. Qed.

(** C9.  A template without the literal mount point comes back from the
    splice unchanged, whatever the fragment and the initial state. *)
Theorem template_without_mount_point_unchanged
        (indexHTML appHTML : string) (initialState : option string) :
  (forall before after, indexHTML <> before +:+ mountPoint +:+ after) ->
  renderHTML indexHTML appHTML initialState = indexHTML.
Proof.
  intros Hnone. unfold renderHTML, JS.replace.
  apply splitFirst_None in Hnone. now rewrite Hnone.
Qed.

Lemma template_without_mount_point_unchanged_witness :
  renderHTML "<body><div id='app'></div></body>" "<h1>Hi</h1>" (Some "{}")
  = "<body><div id='app'></div></body>".
Proof.
  apply template_without_mount_point_unchanged.
  apply splitFirst_None. reflexivity.
Defined.

End RenderHTMLClaims.

(** ** Rounding to a JavaScript number *)

Section DoubleFacts.
Local Open Scope Q_scope.
Import Double.

Lemma two_neq_0 : ~ 2 == 0.
Proof. discriminate. Qed.

Lemma pow2_pos (e : Z) : 0 < 2 ^ e.
Proof. now apply Qpower_0_lt. Qed.

Lemma pow2_add (a b : Z) : 2 ^ (a + b) == 2 ^ a * 2 ^ b.
Proof. apply Qpower_plus, two_neq_0. Qed.

Lemma pow2_le (a b : Z) : (a <= b)%Z -> 2 ^ a <= 2 ^ b.
Proof. intros H. now apply Qpower_le_compat_l. Qed.

Lemma pow2_lt_inv (a b : Z) : 2 ^ a < 2 ^ b -> (a < b)%Z.
Proof. intros H. now apply (Qpower_lt_compat_l_inv 2). Qed.

Lemma pow2_inject (a : Z) : (0 <= a)%Z -> inject_Z (2 ^ a) == 2 ^ a.
Proof. intros H. now rewrite Zpower_Qpower. Qed.

(** [ilog2] finds the binade. *)
Lemma ilog2_spec (q : Q) :
  0 < q -> 2 ^ ilog2 q <= q /\ q < 2 ^ (ilog2 q + 1).
Proof.
  intros Hq. destruct q as [n d].
  assert (Hn : (0 < n)%Z) by (unfold Qlt in Hq; simpl in Hq; lia).
  set (a := Z.log2 n). set (b := Z.log2 (Zpos d)).
  assert (Ha : (0 <= a)%Z) by apply Z.log2_nonneg.
  assert (Hb : (0 <= b)%Z) by apply Z.log2_nonneg.
  destruct (Z.log2_spec n Hn) as [Ha1 Ha2]. fold a in Ha1, Ha2.
  destruct (Z.log2_spec (Zpos d) eq_refl) as [Hb1 Hb2]. fold b in Hb1, Hb2.
  assert (Hlow : 2 ^ (a - b - 1) <= n # d).
  { apply (Qmult_le_r _ _ (2 ^ (b + 1))); [apply pow2_pos|].
    rewrite <- pow2_add.
    replace (a - b - 1 + (b + 1))%Z with a by lia.
    rewrite <- !pow2_inject by lia.
    unfold Z.succ in Hb2.
    assert (0 < 2 ^ a)%Z by (apply Z.pow_pos_nonneg; lia).
    unfold Qle, Qmult, inject_Z; cbn [Qnum Qden].
    generalize dependent (2 ^ a)%Z. generalize dependent (2 ^ (b + 1))%Z.
    intros; nia. }
  assert (Hhigh : n # d < 2 ^ (a - b + 1)).
  { apply (Qmult_lt_r _ _ (2 ^ b)); [apply pow2_pos|].
    rewrite <- pow2_add.
    replace (a - b + 1 + b)%Z with (a + 1)%Z by lia.
    rewrite <- !pow2_inject by lia.
    unfold Z.succ in Ha2.
    assert (0 < 2 ^ b)%Z by (apply Z.pow_pos_nonneg; lia).
    unfold Qlt, Qmult, inject_Z; cbn [Qnum Qden].
    generalize dependent (2 ^ (a + 1))%Z. generalize dependent (2 ^ b)%Z.
    intros; nia. }
  unfold ilog2. cbn [Qnum Qden]. fold a b.
  destruct (Qle_bool (2 ^ (a - b)) (n # d)) eqn:E.
  - apply Qle_bool_iff in E. now split.
  - split; [exact Hlow|].
    replace (a - b - 1 + 1)%Z with (a - b)%Z by lia.
    apply Qnot_le_lt. intros H. apply Qle_bool_iff in H. congruence.
Qed.

Lemma ilog2_unique (q : Q) (l : Z) :
  2 ^ l <= q -> q < 2 ^ (l + 1) -> ilog2 q = l.
Proof.
  intros Hl Hh.
  assert (Hq : 0 < q) by (eapply Qlt_le_trans; [apply (pow2_pos l) | exact Hl]).
  destruct (ilog2_spec q Hq) as [Hl' Hh'].
  assert (ilog2 q < l + 1)%Z
    by (apply pow2_lt_inv; eapply Qle_lt_trans; eassumption).
  assert (l < ilog2 q + 1)%Z
    by (apply pow2_lt_inv; eapply Qle_lt_trans; eassumption).
  lia.
Qed.

Lemma ilog2_le (x y : Q) : 0 < x -> x <= y -> (ilog2 x <= ilog2 y)%Z.
Proof.
  intros Hx Hxy.
  assert (Hy : 0 < y) by (eapply Qlt_le_trans; eassumption).
  destruct (ilog2_spec x Hx) as [Hl _]. destruct (ilog2_spec y Hy) as [_ Hh].
  assert (ilog2 x < ilog2 y + 1)%Z; [|lia].
  apply pow2_lt_inv. eapply Qle_lt_trans; [exact Hl|].
  eapply Qle_lt_trans; eassumption.
Qed.

(** Rounding to the nearest integer. *)
Lemma roundTiesToEven_cases (q : Q) :
  roundTiesToEven q = Qfloor q \/ roundTiesToEven q = (Qfloor q + 1)%Z.
Proof.
  unfold roundTiesToEven.
  destruct (Qcompare _ _); [destruct (Z.even _)|..]; auto.
Qed.

Lemma roundTiesToEven_Z (k : Z) : roundTiesToEven (inject_Z k) = k.
Proof.
  unfold roundTiesToEven. rewrite Qfloor_Z.
  assert (H : inject_Z k - inject_Z k < 1 # 2)
    by (unfold Qlt, Qminus, Qplus, Qopp, inject_Z; simpl; lia).
  destruct (Qcompare_spec (inject_Z k - inject_Z k) (1 # 2)) as [E|L|G];
    [rewrite E in H | reflexivity | ]; exfalso.
  - now apply (Qlt_irrefl (1 # 2)).
  - apply (Qlt_irrefl (1 # 2)). now apply Qlt_trans with (inject_Z k - inject_Z k).
Qed.

Lemma roundTiesToEven_le (x y : Q) :
  x <= y -> (roundTiesToEven x <= roundTiesToEven y)%Z.
Proof.
  intros Hxy. pose proof (Qfloor_resp_le _ _ Hxy) as Hf.
  destruct (Z.eq_dec (Qfloor x) (Qfloor y)) as [E|NE].
  - unfold roundTiesToEven. rewrite E.
    assert (Hfrac : x - inject_Z (Qfloor y) <= y - inject_Z (Qfloor y))
      by (apply Qplus_le_l; exact Hxy).
    destruct (Qcompare_spec (x - inject_Z (Qfloor y)) (1 # 2)) as [Ex|Lx|Gx];
      destruct (Qcompare_spec (y - inject_Z (Qfloor y)) (1 # 2)) as [Ey|Ly|Gy];
      try (destruct (Z.even (Qfloor y))); try lia; exfalso; lra.
  - destruct (roundTiesToEven_cases x) as [-> | ->];
      destruct (roundTiesToEven_cases y) as [-> | ->]; lia.
Qed.

Lemma roundTiesToEven_ge (k : Z) (q : Q) :
  inject_Z k <= q -> (k <= roundTiesToEven q)%Z.
Proof.
  intros H. apply roundTiesToEven_le in H. now rewrite roundTiesToEven_Z in H.
Qed.

Lemma roundTiesToEven_bound (k : Z) (q : Q) :
  q <= inject_Z k -> (roundTiesToEven q <= k)%Z.
Proof.
  intros H. apply roundTiesToEven_le in H. now rewrite roundTiesToEven_Z in H.
Qed.

#[local] Instance roundTiesToEven_comp : Proper (Qeq ==> eq) roundTiesToEven.
Proof.
  intros x y E. unfold roundTiesToEven.
  rewrite (Qfloor_comp _ _ E).
  assert (H : x - inject_Z (Qfloor y) == y - inject_Z (Qfloor y))
    by now rewrite E.
  now rewrite (Qcompare_comp _ _ H _ _ (Qeq_refl (1 # 2))).
Qed.

Lemma ilog2_comp (x y : Q) : 0 < x -> x == y -> ilog2 x = ilog2 y.
Proof.
  intros Hx E. symmetry. destruct (ilog2_spec x Hx) as [Hl Hh].
  apply ilog2_unique; now rewrite <- E.
Qed.

Lemma Qabs_pos_lt (x : Q) : ~ x == 0 -> 0 < Qabs x.
Proof.
  destruct x as [[|n|n] d]; intros H; [now destruct H | reflexivity..].
Qed.

Lemma ulpExponent_comp (x y : Q) :
  ~ x == 0 -> x == y -> ulpExponent x = ulpExponent y.
Proof.
  intros NZ E. unfold ulpExponent.
  rewrite (ilog2_comp (Qabs x) (Qabs y)); [reflexivity| |now rewrite E].
  now apply Qabs_pos_lt.
Qed.

#[local] Instance round_comp : Proper (Qeq ==> Qeq) round.
Proof.
  intros x y E. unfold round.
  destruct (Qeq_bool x 0) eqn:Ex, (Qeq_bool y 0) eqn:Ey; [reflexivity| | |].
  - apply Qeq_bool_iff in Ex. apply Qeq_bool_neq in Ey. rewrite E in Ex. contradiction.
  - apply Qeq_bool_iff in Ey. apply Qeq_bool_neq in Ex. rewrite E in Ex. contradiction.
  - apply Qeq_bool_neq in Ex. rewrite (ulpExponent_comp x y Ex E).
    assert (Hs : x / 2 ^ ulpExponent y == y / 2 ^ ulpExponent y) by now rewrite E.
    now rewrite (roundTiesToEven_comp _ _ Hs).
Qed.

Lemma ulpExponent_pos (q : Q) :
  0 < q -> ulpExponent q = Z.max (ilog2 q - 52) (-1074).
Proof.
  intros H. unfold ulpExponent.
  destruct q as [[|n|n] d]; [discriminate H | reflexivity | discriminate H].
Qed.

Lemma round_pos (q : Q) :
  0 < q ->
  round q = inject_Z (roundTiesToEven (q / 2 ^ ulpExponent q)) * 2 ^ ulpExponent q.
Proof.
  intros H. unfold round.
  destruct (Qeq_bool q 0) eqn:E; [|reflexivity].
  apply Qeq_bool_iff in E. rewrite E in H. discriminate H.
Qed.

(** The significand has at most 53 bits, and all of them unless the
    number is subnormal. *)
Lemma significand_lt (q : Q) : 0 < q -> q / 2 ^ ulpExponent q < 2 ^ 53.
Proof.
  intros H. apply Qlt_shift_div_r; [apply pow2_pos|].
  rewrite <- pow2_add. destruct (ilog2_spec q H) as [_ Hh].
  eapply Qlt_le_trans; [exact Hh|]. apply pow2_le.
  rewrite (ulpExponent_pos q H). lia.
Qed.

Lemma significand_ge (q : Q) :
  0 < q -> (-1074 < ulpExponent q)%Z -> 2 ^ 52 <= q / 2 ^ ulpExponent q.
Proof.
  intros H He. apply Qle_shift_div_l; [apply pow2_pos|].
  rewrite <- pow2_add. destruct (ilog2_spec q H) as [Hl _].
  eapply Qle_trans; [|exact Hl]. apply pow2_le.
  rewrite (ulpExponent_pos q H) in *. lia.
Qed.

Lemma ulpExponent_le (x y : Q) :
  0 < x -> x <= y -> (ulpExponent x <= ulpExponent y)%Z.
Proof.
  intros Hx Hxy.
  assert (Hy : 0 < y) by (eapply Qlt_le_trans; eassumption).
  rewrite (ulpExponent_pos x Hx), (ulpExponent_pos y Hy).
  pose proof (ilog2_le x y Hx Hxy). lia.
Qed.

Lemma round_nonneg (q : Q) : 0 <= q -> 0 <= round q.
Proof.
  intros H. unfold round. destruct (Qeq_bool q 0) eqn:E; [apply Qle_refl|].
  apply Qmult_le_0_compat; [|apply Qlt_le_weak, pow2_pos].
  change 0 with (inject_Z 0). rewrite <- Zle_Qle.
  apply roundTiesToEven_ge. apply Qle_shift_div_l; [apply pow2_pos|].
  now rewrite Qmult_0_l.
Qed.

(** Rounding keeps the order. *)
Lemma round_le (x y : Q) : 0 <= x -> x <= y -> round x <= round y.
Proof.
  intros Hx Hxy.
  destruct (Qle_lt_or_eq _ _ Hx) as [Px|Zx].
  2:{ rewrite <- Zx. change (round 0) with 0. apply round_nonneg.
      now rewrite Zx. }
  assert (Py : 0 < y) by (eapply Qlt_le_trans; eassumption).
  rewrite (round_pos x Px), (round_pos y Py).
  pose proof (ulpExponent_le x y Px Hxy) as He.
  destruct (Z.eq_dec (ulpExponent x) (ulpExponent y)) as [E|NE].
  - rewrite E. apply Qmult_le_compat_r; [|apply Qlt_le_weak, pow2_pos].
    rewrite <- Zle_Qle. apply roundTiesToEven_le.
    apply Qmult_le_compat_r; [exact Hxy|].
    apply Qlt_le_weak, Qinv_lt_0_compat, pow2_pos.
  - apply Qle_trans with (2 ^ (53 + ulpExponent x)).
    + rewrite pow2_add.
      apply Qmult_le_compat_r; [|apply Qlt_le_weak, pow2_pos].
      rewrite <- (pow2_inject 53) by lia. rewrite <- Zle_Qle.
      apply roundTiesToEven_bound. rewrite pow2_inject by lia.
      apply Qlt_le_weak, significand_lt, Px.
    + apply Qle_trans with (2 ^ (52 + ulpExponent y)); [apply pow2_le; lia|].
      rewrite pow2_add.
      apply Qmult_le_compat_r; [|apply Qlt_le_weak, pow2_pos].
      rewrite <- (pow2_inject 52) by lia. rewrite <- Zle_Qle.
      apply roundTiesToEven_ge. rewrite pow2_inject by lia.
      apply significand_ge; [exact Py|].
      pose proof (ulpExponent_pos x Px). lia.
Qed.

(** A number with a significand of at most 53 bits is its own rounding. *)
Lemma round_exact (m k : Z) :
  (0 <= m < 2 ^ 53)%Z -> (-1074 <= k)%Z ->
  round (inject_Z m * 2 ^ k) == inject_Z m * 2 ^ k.
Proof.
  intros [Hm0 Hm] Hk.
  destruct (Z.eq_dec m 0%Z) as [->|NZ].
  { rewrite Qmult_0_l. reflexivity. }
  set (q := inject_Z m * 2 ^ k).
  assert (Pq : 0 < q).
  { apply Qmult_lt_0_compat; [|apply pow2_pos].
    change 0 with (inject_Z 0). rewrite <- Zlt_Qlt. lia. }
  assert (He : (ulpExponent q <= k)%Z).
  { rewrite (ulpExponent_pos q Pq).
    destruct (ilog2_spec q Pq) as [Hl _].
    assert (ilog2 q < 53 + k)%Z; [|lia].
    apply pow2_lt_inv. eapply Qle_lt_trans; [exact Hl|].
    rewrite pow2_add. unfold q.
    apply Qmult_lt_compat_r; [apply pow2_pos|].
    rewrite <- (pow2_inject 53) by lia. rewrite <- Zlt_Qlt. exact Hm. }
  rewrite (round_pos q Pq). generalize dependent (ulpExponent q). intros e He.
  assert (Hs : q / 2 ^ e == inject_Z (m * 2 ^ (k - e))).
  { rewrite inject_Z_mult, pow2_inject by lia. unfold q, Qdiv.
    rewrite <- Qmult_assoc. apply Qmult_comp; [reflexivity|].
    rewrite <- Qpower_opp, <- pow2_add.
    now replace (k + - e)%Z with (k - e)%Z by lia. }
  rewrite (roundTiesToEven_comp _ _ Hs), roundTiesToEven_Z.
  rewrite inject_Z_mult, pow2_inject by lia. unfold q.
  rewrite <- Qmult_assoc, <- pow2_add.
  now replace (k - e + e)%Z with k by lia.
Qed.

Lemma ofZ_exact (n : Z) : (0 <= n < 2 ^ 53)%Z -> ofZ n == inject_Z n.
Proof.
  intros H. unfold ofZ.
  assert (E : inject_Z n == inject_Z n * 2 ^ 0)
    by (rewrite Qpower_0_r, Qmult_1_r; reflexivity).
  rewrite E at 1. rewrite (round_exact n 0 H); [now rewrite <- E | lia].
Qed.

Lemma ofZ_le (a b : Z) : (0 <= a <= b)%Z -> ofZ a <= ofZ b.
Proof.
  intros [H0 H]. apply round_le.
  - change 0 with (inject_Z 0). now rewrite <- Zle_Qle.
  - now rewrite <- Zle_Qle.
Qed.

Lemma div_le (x x' y : Q) : 0 <= x -> x <= x' -> 0 < y -> div x y <= div x' y.
Proof.
  intros H0 H Hy. apply round_le.
  - apply Qle_shift_div_l; [exact Hy | now rewrite Qmult_0_l].
  - apply Qmult_le_compat_r; [exact H|].
    apply Qlt_le_weak, Qinv_lt_0_compat, Hy.
Qed.

Lemma round_below (k : Z) (x : Q) :
  (0 <= k < 2 ^ 53)%Z -> 0 <= x -> x <= inject_Z k -> round x <= inject_Z k.
Proof.
  intros Hk H0 H. apply (round_le _ _ H0) in H.
  eapply Qle_trans; [exact H|]. apply Qle_lteq. right. apply (ofZ_exact k Hk).
Qed.

(** [round] against the operations of the standard library's IEEE 754
    model, at the numbers of [maxThreads]: the constant [1.1 * 1024 ** 3],
    and the two quotients for some CPU counts and amounts of memory. *)
Example round_agrees_with_the_standard_library :
  let bytesPerThread :=
    SFmul 53 1024 (SFdiv 53 1024 (binary64 11) (binary64 10))
          (binary64 (1024 ^ 3)) in
  valueOf bytesPerThread == Render.bytesPerThread /\
  List.Forall
    (fun cpus => valueOf (SFdiv 53 1024 (binary64 (Z.of_nat cpus)) (binary64 2))
                 == Render.perCpu cpus)
    [0; 1; 3; 8; 63]%nat /\
  List.Forall
    (fun freemem => valueOf (SFdiv 53 1024 (binary64 freemem) bytesPerThread)
                    == Render.perMemory freemem)
    [0; 1; 536870912; 1181116006; 1181116007; 17716740096; 17716740097;
     123456789012345; 9007199254740991]%Z.
Proof.
  cbv zeta. split; [|split];
    repeat first [apply List.Forall_nil | apply List.Forall_cons];
    apply Qeq_bool_eq; vm_compute; reflexivity.
Qed.

End DoubleFacts.

(** ** The size of the worker pool *)

Section PoolSizeClaims.
Local Open Scope Q_scope.
Import Double.

Lemma bytesPerThread_value : Render.bytesPerThread == 2476979795053773 # 2097152.
Proof. vm_compute. reflexivity. Qed.

Lemma bytesPerThread_pos : 0 < Render.bytesPerThread.
Proof. rewrite bytesPerThread_value. reflexivity. Qed.

Lemma perCpu_exact (cpus : nat) :
  (Z.of_nat cpus < 2 ^ 53)%Z ->
  Render.perCpu cpus == inject_Z (Z.of_nat cpus) / 2.
Proof.
  intros H. unfold Render.perCpu, div.
  assert (E : ofZ (Z.of_nat cpus) / ofZ 2 == inject_Z (Z.of_nat cpus) * 2 ^ (-1)).
  { rewrite (ofZ_exact (Z.of_nat cpus)) by lia.
    rewrite (ofZ_exact 2) by lia. reflexivity. }
  rewrite (round_comp _ _ E), round_exact by lia. reflexivity.
Qed.

(** All threads but one have their 1.1 GiB of free memory. *)
Lemma threads_within_one_of_memory (url : option string) (cpus : nat) (freemem : Z) :
  (0 <= freemem < 2 ^ 53)%Z -> 1 <= Render.perMemory freemem ->
  inject_Z (Render.maxThreads url cpus freemem) - 1
  < inject_Z freemem / ((11 # 10) * inject_Z (1024 ^ 3)).
Proof.
  intros Hf Hm.
  set (n := Render.maxThreads url cpus freemem).
  assert (Hn1 : (1 <= n)%Z)
    by (unfold n, Render.maxThreads; destruct (JS.truthy url); lia).
  assert (Hle : inject_Z n <= Render.perMemory freemem).
  { unfold n, Render.maxThreads. destruct (JS.truthy url); [exact Hm|].
    apply Z.max_case_strong; intros _; [exact Hm|].
    eapply Qle_trans; [apply Qfloor_le | apply Q.le_min_r]. }
  assert (Hx0 : 0 <= ofZ freemem / Render.bytesPerThread).
  { apply Qle_shift_div_l; [apply bytesPerThread_pos|]. rewrite Qmult_0_l.
    apply round_nonneg. change 0 with (inject_Z 0). rewrite <- Zle_Qle. lia. }
  assert (Hmem : ofZ freemem <= inject_Z (2 ^ 53 - 1)).
  { rewrite ofZ_exact by exact Hf. rewrite <- Zle_Qle. lia. }
  assert (Hpm : Render.perMemory freemem <= inject_Z (2 ^ 53 - 1)).
  { apply round_below; [lia | exact Hx0 |].
    apply Qle_shift_div_r; [apply bytesPerThread_pos|].
    eapply Qle_trans; [exact Hmem|].
    rewrite bytesPerThread_value.
    rewrite <- (Qmult_1_r (inject_Z (2 ^ 53 - 1))) at 1.
    apply Qmult_le_l; [reflexivity | discriminate]. }
  assert (Hn : (n - 1 < 2 ^ 53)%Z).
  { assert (inject_Z n <= inject_Z (2 ^ 53 - 1)) by (eapply Qle_trans; eassumption).
    rewrite <- Zle_Qle in *. lia. }
  assert (Hlt : inject_Z (n - 1) < ofZ freemem / Render.bytesPerThread).
  { apply Qnot_le_lt. intros H.
    apply (round_below (n - 1)) in H; [|lia | exact Hx0].
    assert (inject_Z n <= inject_Z (n - 1)) by (eapply Qle_trans; eassumption).
    rewrite <- Zle_Qle in *. lia. }
  unfold Qminus. change (- (1)) with (inject_Z (-1)). rewrite <- inject_Z_plus.
  replace (n + -1)%Z with (n - 1)%Z by lia.
  eapply Qlt_le_trans; [exact Hlt|].
  rewrite ofZ_exact by exact Hf. rewrite bytesPerThread_value.
  unfold Qdiv. rewrite !(Qmult_comm (inject_Z freemem)).
  apply Qmult_le_compat_r.
  - vm_compute. discriminate.
  - change 0 with (inject_Z 0). rewrite <- Zle_Qle. lia.
Qed.

(** The quotient by 1.1 GiB is rounded twice, at the constant and at the
    division: with 15 times 1.1 GiB of free memory the code sees room for
    14 threads. *)
Example pool_size_follows_the_rounded_quotient :
  Render.maxThreads None 32 17716740096 = 14%Z /\
  Qfloor (inject_Z 17716740096 / ((11 # 10) * inject_Z (1024 ^ 3))) = 15%Z /\
  Render.maxThreads None 32 17716740097 = 15%Z.
Proof. repeat split; vm_compute; reflexivity. Qed.

(** C8, as amended.  With an inspector attached the pool has one thread.
    Otherwise its size is the larger of 1 and the floor of the smaller of
    the two quotients that the code computes in double precision: the CPU
    count over 2, and the free memory over the number nearest to
    [1.1 * 2 ^ 30].  It is never below 1, and it is within both quotients
    when both are at least 1.  The first quotient is half the CPU count,
    without rounding; the second one is rounded, and all threads but one
    have 1.1 GiB of the free memory. *)
Theorem pool_size_bounds (url : option string) (cpus : nat) (freemem : Z) :
  let perCpu := Render.perCpu cpus in
  let perMemory := Render.perMemory freemem in
  (JS.truthy url = true -> Render.maxThreads url cpus freemem = 1%Z) /\
  (JS.truthy url = false ->
   Render.maxThreads url cpus freemem
   = Z.max 1 (Qfloor (Qmin perCpu perMemory))) /\
  (1 <= Render.maxThreads url cpus freemem)%Z /\
  (JS.truthy url = false -> 1 <= perCpu -> 1 <= perMemory ->
   inject_Z (Render.maxThreads url cpus freemem) <= perCpu /\
   inject_Z (Render.maxThreads url cpus freemem) <= perMemory) /\
  ((Z.of_nat cpus < 2 ^ 53)%Z -> perCpu == inject_Z (Z.of_nat cpus) / 2) /\
  ((0 <= freemem < 2 ^ 53)%Z -> 1 <= perMemory ->
   inject_Z (Render.maxThreads url cpus freemem) - 1
   < inject_Z freemem / ((11 # 10) * inject_Z (1024 ^ 3))).
Proof.
  cbv zeta. unfold Render.maxThreads.
  split; [|split; [|split; [|split; [|split]]]].
  - now intros ->.
  - now intros ->.
  - destruct (JS.truthy url); lia.
  - intros -> Hc Hm.
    assert (Hfloor : (1 <= Qfloor (Qmin (Render.perCpu cpus)
                                        (Render.perMemory freemem)))%Z).
    { rewrite <- (Qfloor_Z 1). apply Qfloor_resp_le. now apply Q.min_glb. }
    rewrite Z.max_r by exact Hfloor.
    split; (eapply Qle_trans; [apply Qfloor_le|]);
      [apply Q.le_min_l | apply Q.le_min_r].
  - apply perCpu_exact.
  - apply threads_within_one_of_memory.
Qed.

Lemma pool_size_bounds_witness :
  Render.maxThreads None 8 (16 * 1024 ^ 3) = 4%Z /\
  inject_Z (Render.maxThreads None 8 (16 * 1024 ^ 3)) <= Render.perCpu 8 /\
  inject_Z (Render.maxThreads None 8 (16 * 1024 ^ 3))
  <= Render.perMemory (16 * 1024 ^ 3).
Proof.
  split; [reflexivity|].
  apply (proj1 (proj2 (proj2 (proj2 (pool_size_bounds None 8 (16 * 1024 ^ 3)))))).
  - reflexivity.
  - vm_compute. discriminate.
  - vm_compute. discriminate.
Defined.

(** Against C8 as stated: on a host with one CPU the pool has one thread,
    which is more than half the CPU count; with 512 MiB of free memory it
    has one thread, which is more than that memory over 1.1 GiB. *)
Lemma pool_size_exceeds_bound_on_small_host :
  Render.maxThreads None 1 (8 * 1024 ^ 3) = 1%Z /\
  ~ inject_Z (Render.maxThreads None 1 (8 * 1024 ^ 3))
    <= inject_Z (Z.of_nat 1) / 2 /\
  Render.maxThreads None 16 (512 * 1024 ^ 2) = 1%Z /\
  ~ inject_Z (Render.maxThreads None 16 (512 * 1024 ^ 2))
    <= inject_Z (512 * 1024 ^ 2) / Render.bytesPerThread.
Proof.
  split; [reflexivity|]. split; [intros H; vm_compute in H; now apply H|].
  split; [reflexivity|]. intros H; vm_compute in H; now apply H.
Qed.

End PoolSizeClaims.

(** ** The output file of a route *)

Section FilenameClaims.
Import RenderWorker.

Lemma endsWith_unfold (p s : string) :
  JS.endsWith p s =
  if String.eqb p s then true
  else match s with
       | EmptyString => false
       | String _ s' => JS.endsWith p s'
       end.
Proof. now destruct s. Qed.

Lemma includes_slash_cons (c : ascii) (s : string) :
  JS.includes "/" (String c s) = Ascii.eqb c "/" || JS.includes "/" s.
Proof.
  rewrite includes_unfold.
  destruct (String.prefix "/" (String c s)) eqn:E.
  - apply prefix_spec in E as [r Hr]. now injection Hr as -> _.
  - destruct (Ascii.eqb_spec c "/") as [->|_]; [|reflexivity].
    assert (String.prefix "/" (String "/" s) = true)
      by (apply prefix_spec; now exists s).
    congruence.
Qed.

Lemma slashFree_endsWith (s : string) :
  JS.includes "/" s = false -> JS.endsWith "/" s = false.
Proof.
  induction s as [|c s IH]; [reflexivity|].
  rewrite includes_slash_cons, endsWith_unfold.
  intros H. apply orb_false_elim in H as [Hc Hs].
  destruct (String.eqb_spec "/" (String c s)) as [E|_]; [|now apply IH].
  injection E as <- _. discriminate Hc.
Qed.

Lemma endsWith_slash_app (x t : string) :
  t <> "" -> JS.endsWith "/" (x +:+ t) = JS.endsWith "/" t.
Proof.
  intros Ht. induction x as [|c x IH]; [reflexivity|].
  change (String c x +:+ t) with (String c (x +:+ t)).
  rewrite endsWith_unfold.
  destruct (String.eqb_spec "/" (String c (x +:+ t))) as [E|_]; [|exact IH].
  injection E as _ E. destruct x; simpl in E; [now destruct Ht | discriminate].
Qed.

Lemma segments_cons (c : ascii) (s : string) :
  Path.segments (String c s) =
  if Ascii.eqb c "/" then EmptyString :: Path.segments s
  else match Path.segments s with
       | seg :: segs => String c seg :: segs
       | [] => [String c EmptyString]
       end.
Proof. reflexivity. Qed.

Lemma segments_slashFree (s : string) :
  JS.includes "/" s = false -> Path.segments s = [s].
Proof.
  induction s as [|c s IH]; [reflexivity|].
  rewrite includes_slash_cons. intros H.
  apply orb_false_elim in H as [Hc Hs].
  now rewrite segments_cons, Hc, (IH Hs).
Qed.

Lemma segments_app_slash (s t : string) :
  JS.includes "/" s = false ->
  Path.segments (s +:+ String "/" t) = s :: Path.segments t.
Proof.
  induction s as [|c s IH]; [reflexivity|].
  rewrite includes_slash_cons. intros H.
  apply orb_false_elim in H as [Hc Hs].
  change (String c s +:+ String "/" t) with (String c (s +:+ String "/" t)).
  now rewrite segments_cons, Hc, (IH Hs).
Qed.

Lemma plainSegment_facts (s : string) :
  Path.plainSegment s = true ->
  s <> "" /\ JS.includes "/" s = false /\ s <> "." /\ s <> "..".
Proof.
  unfold Path.plainSegment. intros H.
  apply andb_prop in H as [H H4]. apply andb_prop in H as [H H3].
  apply andb_prop in H as [H1 H2].
  apply negb_true_iff in H1, H2, H3, H4.
  apply String.eqb_neq in H1, H3, H4. auto.
Qed.

Lemma concat_plain_nonempty (segs : list string) :
  segs <> [] -> forallb Path.plainSegment segs = true ->
  String.concat "/" segs <> "".
Proof.
  destruct segs as [|s segs]; [easy|]. intros _ H. simpl in H.
  apply andb_prop in H as [Hs _]. apply plainSegment_facts in Hs as (Hne & _).
  destruct s as [|c s]; [easy|]. simpl. now destruct segs.
Qed.

Lemma segments_concat (segs : list string) :
  segs <> [] -> forallb Path.plainSegment segs = true ->
  Path.segments (String.concat "/" segs) = segs.
Proof.
  induction segs as [|s segs IH]; [easy|]. intros _ H. simpl in H.
  apply andb_prop in H as [Hs Hrest].
  apply plainSegment_facts in Hs as (_ & Hfree & _).
  destruct segs as [|s2 segs].
  - simpl. now apply segments_slashFree.
  - change (String.concat "/" (s :: s2 :: segs))
      with (s +:+ String "/" (String.concat "/" (s2 :: segs))).
    rewrite segments_app_slash by assumption. f_equal. now apply IH.
Qed.

Lemma endsWith_concat (segs : list string) :
  segs <> [] -> forallb Path.plainSegment segs = true ->
  JS.endsWith "/" (String.concat "/" segs) = false.
Proof.
  induction segs as [|s segs IH]; [easy|]. intros _ H. simpl in H.
  apply andb_prop in H as [Hs Hrest].
  apply plainSegment_facts in Hs as (_ & Hfree & _).
  destruct segs as [|s2 segs].
  - simpl. now apply slashFree_endsWith.
  - change (String.concat "/" (s :: s2 :: segs))
      with (s +:+ String "/" (String.concat "/" (s2 :: segs))).
    rewrite endsWith_slash_app by discriminate.
    rewrite endsWith_unfold.
    destruct (String.eqb_spec "/" (String "/" (String.concat "/" (s2 :: segs))))
      as [E|_]; [|now apply IH].
    injection E as E. exfalso.
    apply (concat_plain_nonempty (s2 :: segs));
      [discriminate | assumption | symmetry; exact E].
Qed.

Lemma startsWith_concat (segs : list string) :
  segs <> [] -> forallb Path.plainSegment segs = true ->
  JS.startsWith "/" (String.concat "/" segs) = false.
Proof.
  destruct segs as [|s segs]; [easy|]. intros _ H. simpl in H.
  apply andb_prop in H as [Hs _].
  apply plainSegment_facts in Hs as (Hne & Hfree & _).
  destruct s as [|c s]; [easy|].
  rewrite includes_slash_cons in Hfree. apply orb_false_elim in Hfree as [Hc _].
  assert (E : exists rest, String.concat "/" (String c s :: segs) = String c rest)
    by (destruct segs; simpl; eauto).
  destruct E as [rest ->]. unfold JS.startsWith.
  destruct (String.prefix "/" (String c rest)) eqn:E; [|reflexivity].
  apply prefix_spec in E as [r Hr]. injection Hr as -> _. discriminate Hc.
Qed.

Lemma fold_pushSegment_plain (above : bool) (segs stack : list string) :
  forallb Path.plainSegment segs = true ->
  fold_left (Path.pushSegment above) segs stack = rev segs ++ stack.
Proof.
  revert stack; induction segs as [|s segs IH]; intros stack H; [reflexivity|].
  simpl in H. apply andb_prop in H as [Hs Hrest].
  apply plainSegment_facts in Hs as (H1 & _ & H2 & H3).
  apply String.eqb_neq in H1, H2, H3.
  simpl. unfold Path.pushSegment at 2. rewrite H1, H2, H3. simpl.
  rewrite IH by assumption. now rewrite <- List.app_assoc.
Qed.

(** A path of plain segments is its own normal form. *)
Lemma normalize_plain (segs : list string) :
  segs <> [] -> forallb Path.plainSegment segs = true ->
  Path.normalize (String.concat "/" segs) = String.concat "/" segs.
Proof.
  intros Hne Hplain. unfold Path.normalize.
  pose proof (concat_plain_nonempty segs Hne Hplain) as Hbody.
  apply String.eqb_neq in Hbody.
  rewrite Hbody, startsWith_concat, endsWith_concat, segments_concat by assumption.
  rewrite fold_pushSegment_plain by assumption.
  rewrite List.app_nil_r, List.rev_involutive, Hbody.
  simpl. apply append_empty_r.
Qed.

Lemma concat_snoc (segs : list string) (x : string) :
  segs <> [] ->
  String.concat "/" (segs ++ [x]) = String.concat "/" segs +:+ "/" +:+ x.
Proof.
  induction segs as [|s segs IH]; [easy|]. intros _.
  destruct segs as [|s2 segs]; [reflexivity|].
  change (String.concat "/" ((s :: s2 :: segs) ++ [x]))
    with (s +:+ "/" +:+ String.concat "/" ((s2 :: segs) ++ [x])).
  rewrite IH by discriminate.
  change (String.concat "/" (s :: s2 :: segs))
    with (s +:+ "/" +:+ String.concat "/" (s2 :: segs)).
  now rewrite !append_assoc.
Qed.

(** C6.  The file of a route.  Flat: [index.html] for the root,
    [about.html] for [/about], and the segments followed by [.html] in
    general.  Nested: [index.html] in the directory of the route, which
    for the root is the output directory itself. *)
Theorem output_file_of_route :
  filename Flat "/" = "index.html" /\
  filename Flat "/about" = "about.html" /\
  filename Flat "/a/b" = "a/b.html" /\
  filename Nested "/" = "index.html" /\
  filename Nested "/about" = "about/index.html" /\
  forall segs : list string,
    segs <> [] -> forallb Path.plainSegment segs = true ->
    filename Flat ("/" +:+ String.concat "/" segs)
    = String.concat "/" segs +:+ ".html" /\
    filename Nested ("/" +:+ String.concat "/" segs)
    = String.concat "/" segs +:+ "/index.html".
Proof.
  do 5 (split; [reflexivity|]). intros segs Hne Hplain.
  pose proof (concat_plain_nonempty segs Hne Hplain) as Hbody.
  split.
  - unfold filename, relativeRouteFile.
    change ("/" +:+ String.concat "/" segs)
      with (String "/" (String.concat "/" segs)).
    rewrite endsWith_unfold.
    destruct (String.eqb_spec "/" (String "/" (String.concat "/" segs)))
      as [E|_]; [injection E as E; now destruct Hbody|].
    now rewrite endsWith_concat.
  - unfold filename, Path.join.
    change (JS.removeLeadingSlash ("/" +:+ String.concat "/" segs))
      with (String.concat "/" segs).
    simpl List.filter. apply String.eqb_neq in Hbody. rewrite Hbody. simpl negb.
    cbv iota.
    change (String.concat "/" [String.concat "/" segs; "index.html"])
      with (String.concat "/" segs +:+ "/" +:+ "index.html").
    rewrite <- concat_snoc by assumption.
    rewrite normalize_plain.
    + now apply concat_snoc.
    + now destruct segs.
    + now rewrite forallb_app, Hplain.
Qed.

Lemma output_file_of_route_witness :
  filename Flat "/docs/guide" = "docs/guide.html" /\
  filename Nested "/docs/guide" = "docs/guide/index.html".
Proof.
  apply (proj2 (proj2 (proj2 (proj2 (proj2 output_file_of_route))))
           ["docs"; "guide"]).
  - discriminate.
  - reflexivity.
Defined.

End FilenameClaims.

(** ** Effects of the worker and of the supervisor *)

Section EffectFacts.
Import Effects RenderWorker.
Context {App Head : Type}.

Lemma preserves_ret {A X} (f : World -> X) (a : A) : Preserves f (ret a).
Proof. now intros w. Qed.

Lemma preserves_throw {A X} (f : World -> X) (e : Thrown) :
  Preserves f (throw (A := A) e).
Proof. now intros w. Qed.

Lemma preserves_await {A X} (f : World -> X) (p : Outcome A) :
  Preserves f (await p).
Proof. now intros w. Qed.

Lemma preserves_bind {A B X} (f : World -> X) (m : Async A) (k : A -> Async B) :
  Preserves f m -> (forall a, Preserves f (k a)) -> Preserves f (bind m k).
Proof.
  intros Hm Hk w. unfold bind. specialize (Hm w).
  destruct (m w) as [[a|e|] w']; simpl in *; [|assumption..].
  now rewrite Hk.
Qed.

Lemma preserves_tryCatch {A X} (f : World -> X) (m : Async A)
      (h : Thrown -> Async A) :
  Preserves f m -> (forall e, Preserves f (h e)) -> Preserves f (tryCatch m h).
Proof.
  intros Hm Hh w. unfold tryCatch. specialize (Hm w).
  destruct (m w) as [[a|e|] w']; simpl in *; [assumption| |assumption].
  now rewrite Hh.
Qed.

Lemma preserves_log (l : LogLine) : Preserves supervisorState (log l).
Proof. now intros w. Qed.

Lemma preserves_projection {A} (m : Async A) :
  Preserves supervisorState m ->
  Preserves timers m /\ Preserves finishedCalls m /\ Preserves swRegenerations m.
Proof.
  intros H. repeat split; intros w; specialize (H w);
    unfold supervisorState in H; congruence.
Qed.

Lemma preserves_ensureDir (env : Collaborators App Head) (dir : string) :
  Preserves supervisorState (ensureDir env dir).
Proof.
  intros w. unfold ensureDir.
  now destruct (ensureDirFails env dir) as [[e made]|].
Qed.

Lemma preserves_writeFile (env : Collaborators App Head) (file data : string) :
  Preserves supervisorState (writeFile env file data).
Proof.
  intros w. unfold writeFile.
  now destruct (writeFileFails env file) as [[e [written|]]|].
Qed.

Lemma preserves_format (env : Collaborators App Head) (html : string)
      (formatting : Formatting) :
  Preserves supervisorState (format env html formatting).
Proof. intros w. now destruct formatting. Qed.

(** A page worker touches the console and the files, nothing else. *)
Lemma preserves_worker (env : Collaborators App Head) (ctx : WorkerContext) :
  Preserves supervisorState (worker env ctx).
Proof.
  unfold worker. apply preserves_tryCatch.
  - unfold renderPage.
    repeat first
      [ apply preserves_bind; [|intros]
      | apply preserves_await
      | apply preserves_log
      | apply preserves_ensureDir
      | apply preserves_writeFile
      | apply preserves_format
      | apply preserves_ret
      | match goal with
        | |- Preserves _ (match ?x with _ => _ end) => destruct x
        | |- Preserves _ (let '(_, _) := ?x in _) => destruct x
        end ].
  - intros [v|st|e];
      [apply preserves_throw | apply preserves_log | apply preserves_throw].
Qed.

Lemma preserves_runPool (env : Collaborators App Head)
      (tasks : list WorkerContext) :
  forall free w,
    supervisorState (snd (Render.runPool env free tasks w)) = supervisorState w.
Proof.
  induction tasks as [|task rest IH]; intros free w; [reflexivity|].
  simpl. destruct free as [|free'].
  - specialize (IH 0 w). now destruct (Render.runPool env 0 rest w).
  - pose proof (preserves_worker env task w) as Hw.
    destruct (worker env task w) as [outcome w1]. simpl in Hw.
    match goal with
    | |- context [Render.runPool env ?n rest w1] =>
        specialize (IH n w1); destruct (Render.runPool env n rest w1)
    end.
    simpl in *. congruence.
Qed.

Lemma preserves_renderAll (env : Collaborators App Head) (threads : Z)
      (tasks : list WorkerContext) :
  Preserves supervisorState (Render.renderAll env threads tasks).
Proof.
  intros w. unfold Render.renderAll.
  pose proof (preserves_runPool env tasks (Z.to_nat threads) w) as H.
  now destruct (Render.runPool env (Z.to_nat threads) tasks w).
Qed.

Lemma preserves_routesPaths {X} (f : World -> X) (opts : Render.Options)
      (routes : option (list Utils.RouteRecordRaw)) :
  Preserves f (Render.routesPaths opts routes).
Proof.
  unfold Render.routesPaths.
  apply preserves_bind; [|intros; apply preserves_ret].
  destruct (default false (Render.includeAllRoutes opts));
    [apply preserves_ret|].
  destruct (Render.includedRoutes opts);
    [apply preserves_await | apply preserves_ret].
Qed.

Lemma preserves_readFile {X} (f : World -> X) (path : string) :
  Preserves f (Render.readFile path).
Proof. intros w. unfold Render.readFile. now destruct (files w !! path). Qed.

Lemma preserves_loadIndexHTML (env : Collaborators App Head)
      (ssgOut out : string) (script : option string) :
  Preserves supervisorState (Render.loadIndexHTML env ssgOut out script).
Proof.
  unfold Render.loadIndexHTML.
  apply preserves_tryCatch; [apply preserves_readFile | intros _].
  apply preserves_bind; [apply preserves_readFile | intros].
  apply preserves_bind; [apply preserves_writeFile | intros; apply preserves_ret].
Qed.

Lemma routesPaths_world (opts : Render.Options)
      (routes : option (list Utils.RouteRecordRaw)) (w : World) :
  snd (Render.routesPaths opts routes w) = w.
Proof. exact (preserves_routesPaths (fun w => w) opts routes w). Qed.

End EffectFacts.

(** ** The watchdog *)

Section WatchdogClaims.
Import Effects RenderWorker Render.
Context {App Head : Type}.

Lemma preserves_timers {A} (m : Async A) :
  Preserves supervisorState m -> Preserves timers m.
Proof. intros H. now apply preserves_projection in H. Qed.

Lemma preserves_timers_regenerateSW (hook : Outcome unit) :
  Preserves timers (regenerateSW hook).
Proof. now intros w. Qed.

Lemma preserves_timers_callOnFinished (hook : option (Outcome unit)) :
  Preserves timers (callOnFinished hook).
Proof. intros w. now destruct hook. Qed.

Lemma arms_bind {A} (m : Async A) (k : A -> Async unit) :
  Preserves timers m ->
  (forall a, ArmsWatchdogAtEnd (k a)) ->
  ArmsWatchdogAtEnd (bind m k).
Proof.
  intros Hm Hk w. unfold bind. specialize (Hm w).
  destruct (m w) as [[a|e|] w']; simpl in *.
  - rewrite <- Hm. apply Hk.
  - split; [discriminate | now intros _].
  - split; [discriminate | now intros _].
Qed.

Lemma arms_setTimeout_unref :
  ArmsWatchdogAtEnd
    (bind (setTimeout (ForceExit (LogForceExit waitInSeconds) 0)
                      (waitInSeconds * 1000))
          unref).
Proof.
  intros w. split; [intros _ | intros H; now destruct H].
  cbn. rewrite <- (Nat.add_0_r (length (timers w))).
  now rewrite alter_app_r.
Qed.

Ltac frame_timers :=
  repeat first
    [ apply preserves_timers_regenerateSW
    | apply preserves_timers_callOnFinished
    | apply preserves_routesPaths
    | apply preserves_timers, preserves_renderAll
    | apply preserves_timers, preserves_loadIndexHTML
    | apply preserves_timers, preserves_log
    | apply preserves_await
    | apply preserves_ret
    | apply preserves_bind; [|intros]
    | match goal with
      | |- Preserves _ (match ?x with _ => _ end) => destruct x
      end ].

Lemma render_arms_watchdog_at_end (env : Setup App Head) (opts : Options) :
  ArmsWatchdogAtEnd (render env opts).
Proof.
  unfold render. cbv zeta.
  repeat (apply arms_bind; [solve [frame_timers] | intros]).
  apply arms_setTimeout_unref.
Qed.

End WatchdogClaims.

(** ** Running to the end *)

Section Progress.
Import Effects RenderWorker Render.
Context {App Head : Type}.

Lemma runs_bind {A B} (P : World -> Prop) (m : Async A) (Q : A -> World -> Prop)
      (k : A -> Async B) (R : B -> World -> Prop) :
  Runs P m Q -> (forall a, Runs (Q a) (k a) R) -> Runs P (bind m k) R.
Proof.
  intros Hm Hk w HP. destruct (Hm w HP) as (a & Ea & HQ).
  unfold bind. destruct (m w) as [o w1]. simpl in Ea, HQ. subst o.
  exact (Hk a w1 HQ).
Qed.

(** A step with a known result that leaves the world alone. *)
Lemma runs_bind_known {A B} (P : World -> Prop) (m : Async A) (a : A)
      (k : A -> Async B) (R : B -> World -> Prop) :
  (forall w, m w = (Fulfilled a, w)) -> Runs P (k a) R -> Runs P (bind m k) R.
Proof.
  intros Hm Hk w HP. unfold bind. rewrite Hm. exact (Hk w HP).
Qed.

(** A step that runs to its end and keeps what [P] looks at. *)
Lemma runs_bind_frame {A B X} (f : World -> X) (P : X -> Prop) (m : Async A)
      (k : A -> Async B) (R : B -> World -> Prop) :
  Preserves f m -> (forall w, exists a, fst (m w) = Fulfilled a) ->
  (forall a, Runs (fun w => P (f w)) (k a) R) ->
  Runs (fun w => P (f w)) (bind m k) R.
Proof.
  intros Hf Hm Hk. apply runs_bind with (Q := fun _ w => P (f w)); [|exact Hk].
  intros w HP. destruct (Hm w) as [a Ea]. exists a. split; [exact Ea|].
  now rewrite Hf.
Qed.

Lemma routesPaths_outcome (opts : Options)
      (routes : option (list Utils.RouteRecordRaw)) (w w' : World) :
  fst (routesPaths opts routes w) = fst (routesPaths opts routes w').
Proof.
  unfold routesPaths, bind, ret, await.
  destruct (default false (includeAllRoutes opts)); [reflexivity|].
  destruct (includedRoutes opts) as [custom|]; [|reflexivity].
  now destruct (custom (Utils.routesToPaths routes)).
Qed.

Lemma routesPaths_known (opts : Options)
      (routes : option (list Utils.RouteRecordRaw)) (w0 : World)
      (paths : list string) :
  fst (routesPaths opts routes w0) = Fulfilled paths ->
  forall w, routesPaths opts routes w = (Fulfilled paths, w).
Proof.
  intros H w. rewrite (routesPaths_outcome opts routes w0 w) in H.
  pose proof (routesPaths_world opts routes w) as Hw.
  destruct (routesPaths opts routes w) as [o w1]. simpl in *. congruence.
Qed.

Lemma promiseAll_fulfilled (outcomes : list (Outcome unit)) :
  List.Forall (fun o => o = Fulfilled tt) outcomes ->
  promiseAll outcomes = Fulfilled tt.
Proof. induction 1 as [|o os -> _ IH]; [reflexivity | exact IH]. Qed.

(** With a thread to run on, tasks that are all fulfilled make a batch
    that is fulfilled. *)
Lemma renderAll_of_fulfilled_tasks (env : Collaborators App Head) (threads : Z)
      (tasks : list WorkerContext) :
  (0 < threads)%Z ->
  (forall task w, In task tasks -> fst (worker env task w) = Fulfilled tt) ->
  forall w, fst (renderAll env threads tasks w) = Fulfilled tt.
Proof.
  intros Hthreads Htasks w. unfold renderAll.
  assert (Hfree : exists n, Z.to_nat threads = S n)
    by (exists (Nat.pred (Z.to_nat threads)); lia).
  destruct Hfree as [n ->].
  enough (H : List.Forall (fun o => o = Fulfilled tt)
                          (fst (runPool env (S n) tasks w))).
  { destruct (runPool env (S n) tasks w) as [os w'].
    simpl in *. now apply promiseAll_fulfilled. }
  revert w. induction tasks as [|task rest IH]; intros w; [constructor|].
  simpl. pose proof (Htasks task w (or_introl eq_refl)) as Hw.
  destruct (worker env task w) as [o w1]. simpl in Hw. subst o.
  assert (IH' := IH (fun t w' Hin => Htasks t w' (or_intror Hin)) w1).
  destruct (runPool env (S n) rest w1) as [os w2]. simpl in *.
  now constructor.
Qed.

Lemma maxThreads_pos (url : option string) (cpus : nat) (freemem : Z) :
  (0 < maxThreads url cpus freemem)%Z.
Proof. unfold maxThreads. destruct (JS.truthy url); lia. Qed.

(** The index template is loaded whenever it can be had. *)
Lemma loadIndexHTML_runs (env : Setup App Head) (script : option string)
      (w : World) :
  templateAvailable env (files w) ->
  exists indexHTML,
    fst (loadIndexHTML (poolWorkers env) (ssgOut env) (resolvedOut env) script w)
    = Fulfilled indexHTML.
Proof.
  unfold templateAvailable, loadIndexHTML, tryCatch, readFile, bind, writeFile.
  intros [[t Ht] | [[t Ht] Hwrite]].
  - rewrite Ht. now exists t.
  - destruct (files w !! Path.join [ssgOut env; "index.html"]) as [c|];
      [now exists c|].
    rewrite Ht, Hwrite. simpl. now eexists.
Qed.

(** [render] runs to its end when each of its steps is fulfilled; what
    the batch leaves in the files and the later steps do not look at is
    still there at the end. *)
Lemma render_runs (env : Setup App Head) (opts : Options) (w : World)
      (appCtx : AppContext App Head) (paths : list string) (manifest : Manifest)
      (Q : gmap string string -> Prop) :
  StepsBeforeBatch env opts w appCtx paths manifest ->
  (forall indexHTML,
      Runs (fun _ => True)
           (renderAll (poolWorkers env)
                      (maxThreads (inspectorUrl env) (cpus env) (freemem env))
                      (map (pageTask env opts manifest indexHTML) paths))
           (fun _ w' => Q (files w'))) ->
  fulfilledIfAny (generateSW env) ->
  fulfilledIfAny (onFinished opts) ->
  fst (render env opts w) = Fulfilled tt /\ Q (files (snd (render env opts w))).
Proof.
  intros [(createApp & Hentry & Happ) Hpaths Hcritters Hmock Hmanifest Htemplate]
         Hbatch Hsw Hfinished.
  enough (H : Runs (fun w => templateAvailable env (files w)) (render env opts)
                   (fun _ w' => Q (files w'))).
  { destruct (H w Htemplate) as ([] & E & HQ). now split. }
  unfold render. cbv zeta.
  apply runs_bind_known with (a := createApp); [now rewrite Hentry|].
  apply runs_bind_known with (a := appCtx); [now rewrite Happ|].
  apply runs_bind_known with (a := paths);
    [exact (routesPaths_known _ _ _ _ Hpaths)|].
  apply (runs_bind_frame files (templateAvailable env)).
  { destruct (critters env) as [found|]; now intros w0. }
  { intros w0. destruct (critters env) as [[b|e|]|]; try contradiction;
      now eexists. }
  intros hasCritters.
  apply (runs_bind_frame files (templateAvailable env)).
  { destruct hasCritters; now intros w0. }
  { intros w0. destruct hasCritters; now eexists. }
  intros _.
  apply (runs_bind_frame files (templateAvailable env)).
  { destruct (mock env) as [jsdomGlobal|]; now intros w0. }
  { intros w0. destruct (mock env) as [[[]|e|]|]; try contradiction;
      now eexists. }
  intros _.
  apply runs_bind_known with (a := manifest); [now rewrite Hmanifest|].
  apply runs_bind with (Q := fun _ _ => True).
  { intros w0 Hw0.
    destruct (loadIndexHTML_runs env (Some (default "sync" (script env)))
                                 w0 Hw0) as [t Ht].
    now exists t. }
  intros indexHTML.
  apply runs_bind with (Q := fun _ _ => True); [now intros w0 _; exists tt|].
  intros _.
  apply runs_bind with (Q := fun _ w' => Q (files w')); [apply Hbatch|].
  intros _.
  apply (runs_bind_frame files Q).
  { destruct (generateSW env) as [hook|]; now intros w0. }
  { intros w0. destruct (generateSW env) as [[[]|e|]|]; try contradiction;
      now eexists. }
  intros _.
  apply (runs_bind_frame files Q); [now intros w0 | now intros w0; eexists |].
  intros _.
  apply (runs_bind_frame files Q).
  { destruct (onFinished opts) as [hook|]; now intros w0. }
  { intros w0. destruct (onFinished opts) as [[[]|e|]|]; try contradiction;
      now eexists. }
  intros _.
  intros w0 Hw0. exists tt. now split.
Qed.

(** C2, as amended.  The watchdog is a timer of 15000 ms that forces the
    exit with code 0 and is unref'ed, so that it does not hold the event
    loop.  When every step in front of the batch, every task of the batch
    and the two hooks after it are fulfilled, [render] runs to its end and
    leaves this one timer more behind.  A [render] that has run to its
    end has always armed it, and one in which a step is rejected or never
    settles has armed no timer. *)
Theorem watchdog_armed_only_after_settled_batch
        (env : Setup App Head) (opts : Options) (w : World) :
  watchdog = mkTimer 15000 (ForceExit (LogForceExit 15) 0) false /\
  (forall appCtx paths manifest,
      StepsBeforeBatch env opts w appCtx paths manifest ->
      (forall route indexHTML w',
          In route paths ->
          fst (worker (poolWorkers env)
                      (pageTask env opts manifest indexHTML route) w')
          = Fulfilled tt) ->
      fulfilledIfAny (generateSW env) ->
      fulfilledIfAny (onFinished opts) ->
      fst (render env opts w) = Fulfilled tt /\
      timers (snd (render env opts w)) = timers w ++ [watchdog]) /\
  (fst (render env opts w) = Fulfilled tt ->
   timers (snd (render env opts w)) = timers w ++ [watchdog]) /\
  (fst (render env opts w) <> Fulfilled tt ->
   timers (snd (render env opts w)) = timers w).
Proof.
  split; [reflexivity|]. split; [|apply render_arms_watchdog_at_end].
  intros appCtx paths manifest Hsteps Htasks Hsw Hfinished.
  assert (Hend : fst (render env opts w) = Fulfilled tt).
  { apply (render_runs env opts w appCtx paths manifest (fun _ => True));
      try assumption.
    intros indexHTML w0 _. exists tt. split; [|exact I].
    apply renderAll_of_fulfilled_tasks; [apply maxThreads_pos|].
    intros task w1 Hin. apply in_map_iff in Hin as (route & <- & Hin).
    now apply Htasks. }
  split; [exact Hend|].
  now apply render_arms_watchdog_at_end.
Qed.

End Progress.

Lemma watchdog_armed_only_after_settled_batch_witness :
  let env := Site.setup (Effects.Fulfilled Site.context) None in
  fst (Render.render env Site.options Site.world) = Effects.Fulfilled tt /\
  Effects.timers (snd (Render.render env Site.options Site.world))
  = [Render.watchdog].
Proof.
  cbv zeta.
  apply (proj1 (proj2 (watchdog_armed_only_after_settled_batch
                         (Site.setup (Effects.Fulfilled Site.context) None)
                         Site.options Site.world))
               Site.context ["/broken"; "/ok"] ∅).
  - constructor.
    + now exists (Site.createApp (Effects.Fulfilled Site.context)).
    + reflexivity.
    + exact I.
    + exact I.
    + reflexivity.
    + right. split; [vm_compute; eauto | reflexivity].
  - intros route indexHTML w' _.
    unfold RenderWorker.worker, Effects.tryCatch, RenderWorker.renderPage.
    cbn. now destruct (String.eqb route "/broken").
  - exact I.
  - exact I.
Defined.

(** Against C2 as stated: a worker task that never settles, or a plugin
    hook that never settles, and [render] stays at its [await]; no
    watchdog is armed. *)
Lemma no_watchdog_while_task_or_hook_hangs :
  let hungTask := Render.render (Site.setup Effects.Pending None)
                                Site.options Site.world in
  let hungHook := Render.render
                    (Site.setup (Effects.Fulfilled Site.context)
                                (Some Effects.Pending))
                    Site.options Site.world in
  (fst hungTask = Effects.Pending /\ Effects.timers (snd hungTask) = []) /\
  (fst hungHook = Effects.Pending /\ Effects.timers (snd hungHook) = []).
Proof. cbv zeta. repeat split; vm_compute; reflexivity. Qed.

(** ** Failure of one page *)

Section IsolationFacts.
Import Effects RenderWorker Render.
Context {App Head : Type}.

(** What the [try]/[catch] of the worker makes of its body. *)
Lemma worker_outcome (env : Collaborators App Head) (ctx : WorkerContext)
      (w : World) :
  worker env ctx w =
  match renderPage env ctx w with
  | (Rejected (ThrownValue stackText), w') =>
      log (LogPageError (route ctx) stackText) w'
  | (Rejected (ThrownNullish v), w') =>
      (Rejected (ThrownValue (typeErrorStack v)), w')
  | (Rejected (ThrownUnprintable rethrown), w') => (Rejected rethrown, w')
  | settled => settled
  end.
Proof.
  unfold worker, tryCatch.
  destruct (renderPage env ctx w) as [[[]|[v|st|e]|] w']; reflexivity.
Qed.

(** A task is rejected only when its body threw what the [catch] block
    cannot print: [null], [undefined], or a value whose stack cannot be
    read or turned into text. *)
Lemma worker_rejected_only_on_unprintable (env : Collaborators App Head)
      (ctx : WorkerContext) (w : World) (e : Thrown) :
  fst (worker env ctx w) = Rejected e ->
  (exists v, fst (renderPage env ctx w) = Rejected (ThrownNullish v) /\
             e = ThrownValue (typeErrorStack v)) \/
  fst (renderPage env ctx w) = Rejected (ThrownUnprintable e).
Proof.
  rewrite worker_outcome.
  destruct (renderPage env ctx w) as [[[]|[v|st|e']|] w']; simpl;
    try discriminate.
  - intros [= <-]. left. now exists v.
  - intros [= <-]. now right.
Qed.

(** A task is fulfilled exactly when its body ran to its end or threw
    what the [catch] block prints. *)
Lemma worker_fulfilled (env : Collaborators App Head)
      (ctx : WorkerContext) (w : World) :
  fst (worker env ctx w) = Fulfilled tt <->
  absorbed (fst (renderPage env ctx w)) = true.
Proof.
  rewrite worker_outcome.
  destruct (renderPage env ctx w) as [[[]|[v|st|e']|] w']; simpl;
    split; (reflexivity || discriminate).
Qed.

(** When every body of the batch runs to its end or throws what the
    [catch] block prints, every task is fulfilled, and so is
    [Promise.all]. *)
Lemma renderAll_fulfilled (env : Collaborators App Head) (threads : Z)
      (tasks : list WorkerContext) :
  (0 < threads)%Z ->
  (forall task w, In task tasks ->
                  absorbed (fst (renderPage env task w)) = true) ->
  forall w, fst (renderAll env threads tasks w) = Fulfilled tt.
Proof.
  intros Hthreads Hbodies. apply renderAll_of_fulfilled_tasks; [exact Hthreads|].
  intros task w Hin. apply worker_fulfilled. now apply Hbodies.
Qed.

Lemma keeps_bind {A B} (m : Async A) (k : A -> Async B) :
  KeepsFiles m -> (forall a, KeepsFiles (k a)) -> KeepsFiles (bind m k).
Proof.
  intros Hm Hk w key H. unfold bind. specialize (Hm w key H).
  destruct (m w) as [[a|e|] w']; simpl in *; [|assumption..].
  now apply Hk.
Qed.

Lemma keeps_await {A} (p : Outcome A) : KeepsFiles (await p).
Proof. now intros w key H. Qed.

Lemma keeps_ret {A} (a : A) : KeepsFiles (ret a).
Proof. now intros w key H. Qed.

Lemma keeps_log (l : LogLine) : KeepsFiles (log l).
Proof. now intros w key H. Qed.

Lemma keeps_ensureDir (env : Collaborators App Head) (dir : string) :
  KeepsFiles (ensureDir env dir).
Proof.
  intros w key H. unfold ensureDir.
  now destruct (ensureDirFails env dir) as [[e made]|].
Qed.

Lemma keeps_writeFile (env : Collaborators App Head) (file data : string) :
  KeepsFiles (writeFile env file data).
Proof.
  intros w key H. unfold writeFile.
  destruct (writeFileFails env file) as [[e [written|]]|]; simpl;
    [| assumption |]; apply lookup_insert_is_Some'; now right.
Qed.

Lemma keeps_format (env : Collaborators App Head) (html : string)
      (formatting : Formatting) :
  KeepsFiles (format env html formatting).
Proof. intros w key H. now destruct formatting. Qed.

Lemma keeps_worker (env : Collaborators App Head) (ctx : WorkerContext) :
  KeepsFiles (worker env ctx).
Proof.
  assert (Hbody : KeepsFiles (renderPage env ctx)).
  { unfold renderPage.
    repeat first
      [ apply keeps_bind; [|intros]
      | apply keeps_await
      | apply keeps_log
      | apply keeps_ensureDir
      | apply keeps_writeFile
      | apply keeps_format
      | apply keeps_ret
      | match goal with
        | |- KeepsFiles (match ?x with _ => _ end) => destruct x
        | |- KeepsFiles (let '(_, _) := ?x in _) => destruct x
        end ]. }
  intros w key H. rewrite worker_outcome. specialize (Hbody w key H).
  now destruct (renderPage env ctx w) as [[[]|[v|st|e]|] w'].
Qed.

Lemma keeps_runPool (env : Collaborators App Head) (tasks : list WorkerContext) :
  forall free w key,
    is_Some (files w !! key) ->
    is_Some (files (snd (runPool env free tasks w)) !! key).
Proof.
  induction tasks as [|task rest IH]; intros free w key H; [assumption|].
  simpl. destruct free as [|free'].
  - specialize (IH 0 w key H). now destruct (runPool env 0 rest w).
  - pose proof (keeps_worker env task w key H) as Hw.
    destruct (worker env task w) as [outcome w1]. simpl in Hw.
    match goal with
    | |- context [runPool env ?n rest w1] =>
        specialize (IH n w1 key Hw); destruct (runPool env n rest w1)
    end.
    assumption.
Qed.

Lemma writes_bind_later {A B} (key : string) (m : Async A) (k : A -> Async B) :
  (forall a, Writes key (k a)) -> Writes key (bind m k).
Proof.
  intros Hk w b. unfold bind.
  destruct (m w) as [[a|e|] w']; simpl; try discriminate. apply Hk.
Qed.

Lemma writes_bind_now {A B} (key : string) (m : Async A) (k : A -> Async B) :
  Writes key m -> (forall a, KeepsFiles (k a)) -> Writes key (bind m k).
Proof.
  intros Hm Hk w b. unfold bind. specialize (Hm w).
  destruct (m w) as [[a|e|] w']; simpl in *; try discriminate.
  intros _. apply Hk. now apply (Hm a).
Qed.

Lemma writes_writeFile (env : Collaborators App Head) (file data : string) :
  Writes file (writeFile env file data).
Proof.
  intros w a. unfold writeFile.
  destruct (writeFileFails env file) as [[e [written|]]|]; simpl;
    [discriminate.. |].
  intros _. apply lookup_insert_is_Some'. now left.
Qed.

(** A body that runs to its end has written the file of its route. *)
Lemma renderPage_writes (env : Collaborators App Head) (ctx : WorkerContext) :
  Writes (Path.join [out ctx; filename (dirStyle ctx) (route ctx)])
         (renderPage env ctx).
Proof.
  unfold renderPage. cbv zeta.
  repeat lazymatch goal with
         | |- Writes _ (bind (writeFile _ _ _) _) => fail
         | |- Writes _ (let '(_, _) := ?x in _) => destruct x
         | |- Writes _ (bind _ _) => apply writes_bind_later; intros
         end.
  apply writes_bind_now; [apply writes_writeFile | intros; apply keeps_await].
Qed.

(** When every task of the batch is fulfilled, the file of every route
    whose body runs to its end is there after the batch. *)
Lemma renderAll_writes_pages (env : Collaborators App Head) (threads : Z)
      (tasks : list WorkerContext) :
  (0 < threads)%Z ->
  (forall task w, In task tasks ->
                  absorbed (fst (renderPage env task w)) = true) ->
  forall task,
    In task tasks ->
    (forall w, fst (renderPage env task w) = Fulfilled tt) ->
    forall w,
      is_Some (files (snd (renderAll env threads tasks w))
               !! Path.join [out task; filename (dirStyle task) (route task)]).
Proof.
  intros Hthreads Hbodies task Hin Hok w. unfold renderAll.
  assert (Hfree : exists n, Z.to_nat threads = S n)
    by (exists (Nat.pred (Z.to_nat threads)); lia).
  destruct Hfree as [n ->].
  enough (H : is_Some (files (snd (runPool env (S n) tasks w))
                       !! Path.join [out task;
                                     filename (dirStyle task) (route task)]))
    by now destruct (runPool env (S n) tasks w).
  revert w. induction tasks as [|t rest IH]; intros w; [destruct Hin|].
  simpl.
  assert (Hw : fst (worker env t w) = Fulfilled tt)
    by (apply worker_fulfilled, Hbodies; now left).
  destruct Hin as [->|Hin].
  - assert (Hfile : is_Some (files (snd (worker env task w))
                             !! Path.join [out task;
                                           filename (dirStyle task) (route task)])).
    { rewrite worker_outcome.
      pose proof (renderPage_writes env task w tt (Hok w)) as Hp.
      specialize (Hok w).
      destruct (renderPage env task w) as [[[]|[v|st|e]|] w']; simpl in *;
        try discriminate. assumption. }
    destruct (worker env task w) as [o w1]. simpl in Hw, Hfile. subst o.
    pose proof (keeps_runPool env rest (S n) w1 _ Hfile) as Hrest.
    now destruct (runPool env (S n) rest w1).
  - destruct (worker env t w) as [o w1]. simpl in Hw. subst o.
    specialize (IH (fun t' w' Hin' => Hbodies t' w' (or_intror Hin')) Hin w1).
    now destruct (runPool env (S n) rest w1).
Qed.

Lemma preserves_finishedCalls {A} (m : Async A) :
  Preserves supervisorState m -> Preserves finishedCalls m.
Proof. intros H. now apply preserves_projection in H. Qed.

Lemma preserves_finishedCalls_regenerateSW (hook : Outcome unit) :
  Preserves finishedCalls (regenerateSW hook).
Proof. now intros w. Qed.

Lemma calls_bind {A} (n : nat) (m : Async A) (k : A -> Async unit) :
  Preserves finishedCalls m ->
  (forall a, CallsOnFinished n (k a)) ->
  CallsOnFinished n (bind m k).
Proof.
  intros Hm Hk w. unfold bind. specialize (Hm w).
  destruct (m w) as [[a|e|] w']; simpl in *.
  - rewrite <- Hm. apply Hk.
  - split; [discriminate | lia].
  - split; [discriminate | lia].
Qed.

Lemma calls_at_the_end (hook : option (Outcome unit)) :
  CallsOnFinished (match hook with Some _ => 1 | None => 0 end)
    (bind (callOnFinished hook)
          (fun _ => bind (setTimeout (ForceExit (LogForceExit waitInSeconds) 0)
                                     (waitInSeconds * 1000))
                         unref)).
Proof.
  intros w. destruct hook as [[[]|e|]|]; cbn; split; intros; lia.
Qed.

Ltac frame_finished :=
  repeat first
    [ apply preserves_finishedCalls_regenerateSW
    | apply preserves_routesPaths
    | apply preserves_finishedCalls, preserves_renderAll
    | apply preserves_finishedCalls, preserves_loadIndexHTML
    | apply preserves_finishedCalls, preserves_log
    | apply preserves_await
    | apply preserves_ret
    | apply preserves_bind; [|intros]
    | match goal with
      | |- Preserves _ (match ?x with _ => _ end) => destruct x
      end ].

(** The completion hook is called once by a [render] that runs to its
    end, and never more than once. *)
Lemma render_calls_onFinished_once (env : Setup App Head) (opts : Options) :
  CallsOnFinished (match onFinished opts with Some _ => 1 | None => 0 end)
                  (render env opts).
Proof.
  unfold render. cbv zeta.
  repeat (apply calls_bind; [solve [frame_finished] | intros]).
  apply calls_at_the_end.
Qed.

End IsolationFacts.

(** C1, at the failing input.  The factory fails for [/broken].  When it
    throws an [Error], the error is logged, [/ok] is written and the
    completion hook is called once.  When it throws [undefined], reading
    [err.stack] in the [catch] block throws in turn: nothing is logged
    for the route, the task is rejected, [render] is rejected with it,
    and the completion hook is not called. *)
Theorem nullish_throw_escapes_the_worker :
  let caught := Render.render
                  (Site.setup (Effects.Rejected (Effects.ThrownValue "Error: boom")) None)
                  Site.options Site.world in
  let escaped := Render.render
                   (Site.setup
                      (Effects.Rejected (Effects.ThrownNullish Effects.JsUndefined))
                      None)
                   Site.options Site.world in
  (fst caught = Effects.Fulfilled tt /\
   In (Effects.LogPageError "/broken" "Error: boom") (Effects.console (snd caught)) /\
   Effects.files (snd caught) !! "/site/dist/ok.html" = Some Site.okPage /\
   Effects.finishedCalls (snd caught) = 1) /\
  (fst escaped
   = Effects.Rejected
       (Effects.ThrownValue (RenderWorker.typeErrorStack Effects.JsUndefined)) /\
   (forall stackText,
       ~ In (Effects.LogPageError "/broken" stackText)
            (Effects.console (snd escaped))) /\
   Effects.files (snd escaped) !! "/site/dist/ok.html" = Some Site.okPage /\
   Effects.finishedCalls (snd escaped) = 0).
Proof.
  cbv zeta. split; [split; [|split; [|split]] | split; [|split; [|split]]];
    try (vm_compute; reflexivity).
  - vm_compute. auto.
  - intros stackText H. vm_compute in H.
    destruct H as [H|[H|[H|[]]]]; discriminate.
Qed.

(* ================================================================== *)
(** * Further properties of the code *)
(* ================================================================== *)

(** ** Route enumeration *)

Section RouteEnumeration.
Import Utils.

Lemma emitted_Some (q : string) (n : RouteRecordRaw) (x : string) :
  emitted q n = Some x <->
  exists p, routePath n = Some p /\ p <> "" /\ x = joinPrefix q p.
Proof.
  unfold emitted. split.
  - destruct (routePath n) as [p|]; simpl; [|discriminate].
    destruct (String.eqb_spec p "") as [->|Hne]; simpl; [discriminate|].
    intros [= <-]. now exists p.
  - intros (p & -> & Hne & ->). now rewrite truthy_Some.
Qed.

(** X1.  The result of [routesToPaths] has no duplicates, and its entries
    are exactly the paths of the nodes with a non-empty path, each joined
    to the prefix under which the traversal reaches the node. *)
Theorem routesToPaths_entries :
  (forall routes, List.NoDup (routesToPaths routes)) /\
  (forall rs x,
      In x (routesToPaths (Some rs)) <->
      exists root q n p,
        In root rs /\ visits "" root q n /\
        routePath n = Some p /\ p <> "" /\ x = joinPrefix q p).
Proof.
  split; [apply routesToPaths_NoDup|]. intros rs x.
  unfold routesToPaths. rewrite getPaths_spec. simpl. split.
  - intros [[]|(root & Hroot & q & n & Hv & He)].
    apply emitted_Some in He as (p & Hp & Hne & ->).
    now exists root, q, n, p.
  - intros (root & q & n & p & Hroot & Hv & Hp & Hne & ->).
    right. exists root. split; [assumption|]. exists q, n. split; [assumption|].
    apply emitted_Some. now exists p.
Qed.

Lemma joinPrefix_empty (p : string) : joinPrefix "" p = p.
Proof. reflexivity. Qed.

Lemma loopBody_leaf (q : string) (r : RouteRecordRaw) (acc : JS.JsSet) :
  routeChildren r = None \/ routeChildren r = Some [] ->
  loopBody q r acc = match emitted q r with
                     | Some p => JS.add p acc
                     | None => acc
                     end.
Proof.
  destruct r as [rp rc]. simpl routeChildren.
  intros [->| ->]; now rewrite loopBody_unfold.
Qed.

(** X2.  For a route table whose routes have no children, the result is
    the non-empty paths in the order of the table, each one kept where it
    occurs first. *)
Theorem routesToPaths_of_flat_table (rs : list RouteRecordRaw) :
  List.Forall (fun r => routeChildren r = None \/ routeChildren r = Some []) rs ->
  routesToPaths (Some rs)
  = JS.fromArray
      (omap (fun r => if JS.truthy (routePath r) then routePath r else None) rs).
Proof.
  intros Hflat. unfold routesToPaths, getPaths, JS.fromArray. simpl JS.removeTrailingSlash.
  generalize (@nil string) as acc.
  induction Hflat as [|r rs Hr _ IH]; intros acc; [reflexivity|].
  simpl fold_left at 1. rewrite IH, (loopBody_leaf _ _ _ Hr). unfold emitted.
  simpl omap. destruct (JS.truthy (routePath r)) eqn:Ht.
  - destruct (routePath r) as [p|]; [|discriminate Ht].
    simpl. now rewrite joinPrefix_empty.
  - reflexivity.
Qed.

Lemma routesToPaths_of_flat_table_witness :
  routesToPaths
    (Some [Route (Some "/b") None; Route (Some "/a") (Some []);
           Route (Some "/b") None; Route (Some "") None; Route None None])
  = ["/b"; "/a"].
Proof.
  apply (routesToPaths_of_flat_table
           [Route (Some "/b") None; Route (Some "/a") (Some []);
            Route (Some "/b") None; Route (Some "") None; Route None None]).
  repeat first [ apply List.Forall_nil
               | apply List.Forall_cons; [first [now left | now right]|] ].
Defined.

(** X3.  A route table in which no node has a non-empty path gives the
    empty list: no page at all, where a missing table gives the root. *)
Theorem routesToPaths_without_any_path (rs : list RouteRecordRaw) :
  (forall root q n, In root rs -> visits "" root q n ->
                    JS.truthy (routePath n) = false) ->
  routesToPaths (Some rs) = [] /\ routesToPaths None = ["/"].
Proof.
  intros Hnone. split; [|reflexivity].
  destruct (routesToPaths (Some rs)) as [|x l] eqn:E; [reflexivity|].
  assert (Hx : In x (routesToPaths (Some rs))) by (rewrite E; now left).
  unfold routesToPaths in Hx. apply getPaths_spec in Hx.
  destruct Hx as [[]|(root & Hroot & q & n & Hv & He)].
  apply emitted_Some in He as (p & Hp & Hne & _).
  specialize (Hnone root q n Hroot Hv). rewrite Hp, truthy_Some in Hnone by assumption.
  discriminate.
Qed.

Lemma routesToPaths_without_any_path_witness :
  routesToPaths (Some [Route (Some "") (Some [Route None None])]) = [] /\
  routesToPaths (Some []) = [].
Proof.
  split.
  - apply (routesToPaths_without_any_path
             [Route (Some "") (Some [Route None None])]).
    intros root q n [<-|[]] Hv.
    inversion Hv as [|? ? cs c ? ? Hcs Hc Hv']; subst; [reflexivity|].
    injection Hcs as <-. destruct Hc as [<-|[]].
    inversion Hv' as [|? ? cs' c' ? ? Hcs' _ _]; subst; [reflexivity|].
    discriminate Hcs'.
  - apply (routesToPaths_without_any_path []). intros root q n [].
Defined.

End RouteEnumeration.

(** ** Selection of the routes to render *)

Section RouteSelection.
Import Utils Effects.

Lemma addAll_NoDup_id (l acc : list string) :
  List.NoDup (acc ++ l) -> fold_left (fun s x => JS.add x s) l acc = acc ++ l.
Proof.
  revert acc; induction l as [|a l IH]; intros acc H; simpl.
  - now rewrite List.app_nil_r.
  - assert (Ha : JS.has a acc = false).
    { destruct (JS.has a acc) eqn:E; [|reflexivity].
      apply has_In in E. apply List.NoDup_remove_2 in H.
      destruct H. apply in_or_app. now left. }
    unfold JS.add at 2. rewrite Ha.
    rewrite IH; rewrite <- List.app_assoc; [reflexivity | exact H].
Qed.

Lemma fromArray_NoDup_id (l : list string) :
  List.NoDup l -> JS.fromArray l = l.
Proof. intros H. unfold JS.fromArray. now rewrite addAll_NoDup_id. Qed.

(** X4.  [DefaultIncludedRoutes] keeps a path exactly when the path has
    neither a colon nor an asterisk; it keeps the order, so it works
    piece by piece on a list, and applying it again changes nothing. *)
Theorem DefaultIncludedRoutes_keeps_static_paths (paths : list string) :
  (forall p, In p (Render.DefaultIncludedRoutes paths) <->
             In p paths /\ JS.includes ":" p = false /\ JS.includes "*" p = false) /\
  (forall more, Render.DefaultIncludedRoutes (paths ++ more)
                = Render.DefaultIncludedRoutes paths
                  ++ Render.DefaultIncludedRoutes more) /\
  Render.DefaultIncludedRoutes (Render.DefaultIncludedRoutes paths)
  = Render.DefaultIncludedRoutes paths.
Proof.
  unfold Render.DefaultIncludedRoutes. split; [|split].
  - intros p. rewrite filter_In, andb_true_iff, !negb_true_iff. tauto.
  - intros more. apply List.filter_app.
  - induction paths as [|a l IH]; [reflexivity|]. simpl.
    destruct (negb (JS.includes ":" a) && negb (JS.includes "*" a)) eqn:E;
      [|exact IH].
    simpl. now rewrite E, IH.
Qed.

(** X5.  Without a custom inclusion predicate the pass through a [Set]
    changes nothing: the dispatched list is the enumeration itself under
    the bypass flag, and the enumeration filtered by
    [DefaultIncludedRoutes] otherwise, in the order of the enumeration. *)
Theorem default_selection_is_the_filtered_enumeration
        (opts : Render.Options) (routes : option (list RouteRecordRaw))
        (w : World) :
  Render.includedRoutes opts = None ->
  Render.routesPaths opts routes w
  = (Fulfilled (if default false (Render.includeAllRoutes opts)
                then routesToPaths routes
                else Render.DefaultIncludedRoutes (routesToPaths routes)), w).
Proof.
  intros Hdefault. unfold Render.routesPaths, bind, ret. rewrite Hdefault.
  pose proof (routesToPaths_NoDup routes) as Hnd.
  destruct (default false (Render.includeAllRoutes opts)).
  - now rewrite fromArray_NoDup_id.
  - rewrite fromArray_NoDup_id; [reflexivity|].
    unfold Render.DefaultIncludedRoutes. now apply List.NoDup_filter.
Qed.

Lemma default_selection_is_the_filtered_enumeration_witness :
  Render.routesPaths Render.defaultOptions
    (Some [Route (Some "/docs") (Some [Route (Some ":page") None;
                                       Route (Some "intro") None]);
           Route (Some "/docs") None])
    emptyWorld
  = (Fulfilled ["/docs"; "/docs/intro"], emptyWorld).
Proof.
  apply (default_selection_is_the_filtered_enumeration Render.defaultOptions).
  reflexivity.
Defined.

End RouteSelection.

(** ** Output files of different routes *)

Section OutputFiles.
Import RenderWorker.

Lemma append_length (a b : string) :
  String.length (a +:+ b) = String.length a + String.length b.
Proof. induction a as [|c a IH]; simpl; [reflexivity | now rewrite IH]. Qed.

Lemma append_cancel_r (a b c : string) : a +:+ c = b +:+ c -> a = b.
Proof.
  revert b; induction a as [|x a IH]; intros [|y b] H; simpl in H.
  - reflexivity.
  - apply (f_equal String.length) in H. simpl in H. rewrite append_length in H. lia.
  - apply (f_equal String.length) in H. simpl in H. rewrite append_length in H. lia.
  - injection H as -> H. f_equal. now apply IH.
Qed.

Lemma filename_flat_without_trailing_slash (s : string) :
  JS.endsWith "/" (String "/" s) = false ->
  filename Flat (String "/" s) = s +:+ ".html".
Proof. intros H. unfold filename, relativeRouteFile. now rewrite H. Qed.

Lemma concat_plain_head (segs : list string) :
  segs <> [] -> forallb Path.plainSegment segs = true ->
  exists c rest, String.concat "/" segs = String c rest /\ Ascii.eqb c "/" = false.
Proof.
  destruct segs as [|s segs]; [easy|]. intros _ H. simpl in H.
  apply andb_prop in H as [Hs _].
  apply plainSegment_facts in Hs as (Hne & Hfree & _).
  destruct s as [|c s]; [easy|].
  rewrite includes_slash_cons in Hfree. apply orb_false_elim in Hfree as [Hc _].
  destruct segs; simpl; eauto.
Qed.

Lemma filename_nested_plain (segs : list string) :
  segs <> [] -> forallb Path.plainSegment segs = true ->
  filename Nested (String "/" (String.concat "/" segs))
  = String.concat "/" segs +:+ "/index.html".
Proof.
  intros Hne Hplain.
  pose proof (concat_plain_nonempty segs Hne Hplain) as Hbody.
  unfold filename, Path.join.
  change (JS.removeLeadingSlash (String "/" (String.concat "/" segs)))
    with (String.concat "/" segs).
  simpl List.filter. apply String.eqb_neq in Hbody. rewrite Hbody. simpl negb.
  cbv iota.
  change (String.concat "/" [String.concat "/" segs; "index.html"])
    with (String.concat "/" segs +:+ "/" +:+ "index.html").
  rewrite <- concat_snoc by assumption.
  rewrite normalize_plain.
  - now apply concat_snoc.
  - now destruct segs.
  - now rewrite forallb_app, Hplain.
Qed.

(** X6.  Different routes get different files.  Flat style: for routes
    that start with a slash and do not end with one.  Nested style: for
    routes made of plain segments. *)
Theorem different_routes_different_files :
  (forall r1 r2,
      JS.startsWith "/" r1 = true -> JS.startsWith "/" r2 = true ->
      JS.endsWith "/" r1 = false -> JS.endsWith "/" r2 = false ->
      r1 <> r2 -> filename Flat r1 <> filename Flat r2) /\
  (forall segs1 segs2,
      segs1 <> [] -> forallb Path.plainSegment segs1 = true ->
      segs2 <> [] -> forallb Path.plainSegment segs2 = true ->
      "/" +:+ String.concat "/" segs1 <> "/" +:+ String.concat "/" segs2 ->
      filename Nested ("/" +:+ String.concat "/" segs1)
      <> filename Nested ("/" +:+ String.concat "/" segs2)).
Proof.
  split.
  - intros r1 r2 H1 H2 E1 E2 Hne Hsame.
    apply prefix_spec in H1 as [s1 ->], H2 as [s2 ->].
    change ("/" +:+ s1) with (String "/" s1) in *.
    change ("/" +:+ s2) with (String "/" s2) in *.
    rewrite !filename_flat_without_trailing_slash in Hsame by assumption.
    apply append_cancel_r in Hsame. now subst.
  - intros segs1 segs2 N1 P1 N2 P2 Hne Hsame.
    change ("/" +:+ String.concat "/" segs1)
      with (String "/" (String.concat "/" segs1)) in *.
    change ("/" +:+ String.concat "/" segs2)
      with (String "/" (String.concat "/" segs2)) in *.
    rewrite !filename_nested_plain in Hsame by assumption.
    apply append_cancel_r in Hsame. now rewrite Hsame in Hne.
Qed.

Lemma different_routes_different_files_witness :
  filename Flat "/docs" <> filename Flat "/docs/intro" /\
  filename Nested "/docs" <> filename Nested "/docs/intro".
Proof.
  split.
  - apply (proj1 different_routes_different_files "/docs" "/docs/intro");
      (reflexivity || discriminate).
  - apply (proj2 different_routes_different_files ["docs"] ["docs"; "intro"]);
      (reflexivity || discriminate).
Defined.

Lemma segments_concat_app (segs : list string) (t : string) :
  segs <> [] -> forallb Path.plainSegment segs = true ->
  Path.segments (String.concat "/" segs +:+ String "/" t)
  = segs ++ Path.segments t.
Proof.
  induction segs as [|s segs IH]; [easy|]. intros _ H. simpl in H.
  apply andb_prop in H as [Hs Hrest].
  apply plainSegment_facts in Hs as (_ & Hfree & _).
  destruct segs as [|s2 segs].
  - simpl String.concat. now rewrite segments_app_slash.
  - change (String.concat "/" (s :: s2 :: segs))
      with (s +:+ String "/" (String.concat "/" (s2 :: segs))).
    rewrite append_assoc.
    change (String "/" (String.concat "/" (s2 :: segs)) +:+ String "/" t)
      with (String "/" (String.concat "/" (s2 :: segs) +:+ String "/" t)).
    rewrite segments_app_slash by assumption.
    rewrite IH by (assumption || discriminate). reflexivity.
Qed.

(** X7.  A route of plain segments and the same route with a slash at
    its end share one file under the nested style; under the flat style
    the route with the slash gets the file that the nested style gives
    to the route without it. *)
Theorem trailing_slash_route_shares_nested_file (segs : list string) :
  segs <> [] -> forallb Path.plainSegment segs = true ->
  let route := "/" +:+ String.concat "/" segs in
  filename Nested (route +:+ "/") = filename Nested route /\
  filename Flat (route +:+ "/") = filename Nested route /\
  route +:+ "/" <> route.
Proof.
  intros Hne Hplain route. subst route.
  change ("/" +:+ String.concat "/" segs)
    with (String "/" (String.concat "/" segs)).
  rewrite filename_nested_plain by assumption.
  set (body := String.concat "/" segs).
  pose proof (concat_plain_nonempty segs Hne Hplain) as Hbody. fold body in Hbody.
  destruct (concat_plain_head segs Hne Hplain) as (c & rest & Hc & Hslash).
  fold body in Hc.
  split; [|split].
  - unfold filename, Path.join.
    change (JS.removeLeadingSlash (String "/" body +:+ "/")) with (body +:+ "/").
    simpl List.filter.
    assert (E : String.eqb (body +:+ "/") "" = false)
      by (apply String.eqb_neq; rewrite Hc; discriminate).
    rewrite E. simpl negb. cbv iota.
    change (String.concat "/" [body +:+ "/"; "index.html"])
      with ((body +:+ "/") +:+ "/" +:+ "index.html").
    unfold Path.normalize.
    assert (E0 : String.eqb ((body +:+ "/") +:+ "/" +:+ "index.html") "" = false)
      by (apply String.eqb_neq; rewrite Hc; discriminate).
    assert (E1 : JS.startsWith "/" ((body +:+ "/") +:+ "/" +:+ "index.html") = false).
    { unfold JS.startsWith.
      destruct (String.prefix "/" ((body +:+ "/") +:+ "/" +:+ "index.html")) eqn:P;
        [|reflexivity].
      apply prefix_spec in P as [r Hr]. rewrite Hc in Hr.
      injection Hr as -> _. discriminate Hslash. }
    assert (E2 : JS.endsWith "/" ((body +:+ "/") +:+ "/" +:+ "index.html") = false).
    { rewrite <- append_assoc. now rewrite endsWith_slash_app by discriminate. }
    rewrite E0, E1, E2. simpl negb.
    replace ((body +:+ "/") +:+ "/" +:+ "index.html")
      with (body +:+ String "/" "/index.html")
      by (now rewrite append_assoc).
    unfold body. rewrite segments_concat_app by assumption.
    rewrite fold_left_app, (fold_pushSegment_plain true segs []) by assumption.
    change (Path.segments "/index.html") with [""; "index.html"].
    simpl fold_left. rewrite List.app_nil_r.
    change (Path.pushSegment true (Path.pushSegment true (rev segs) "") "index.html")
      with ("index.html" :: rev segs).
    change (rev ("index.html" :: rev segs)) with (rev (rev segs) ++ ["index.html"]).
    rewrite List.rev_involutive, concat_snoc by assumption.
    fold body.
    assert (E3 : String.eqb (body +:+ "/" +:+ "index.html") "" = false)
      by (apply String.eqb_neq; rewrite Hc; discriminate).
    rewrite E3. simpl. now rewrite append_empty_r.
  - unfold filename, relativeRouteFile.
    assert (E : JS.endsWith "/" (String "/" body +:+ "/") = true)
      by now rewrite endsWith_slash_app by discriminate.
    rewrite E.
    change (JS.removeLeadingSlash ((String "/" body +:+ "/") +:+ "index"))
      with ((body +:+ "/") +:+ "index").
    now rewrite !append_assoc.
  - intros E. apply (f_equal String.length) in E.
    rewrite append_length in E. simpl in E. lia.
Qed.

Lemma trailing_slash_route_shares_nested_file_witness :
  filename Nested "/docs/intro/" = filename Nested "/docs/intro" /\
  filename Flat "/docs/intro/" = filename Nested "/docs/intro" /\
  "/docs/intro/" <> "/docs/intro".
Proof.
  apply (trailing_slash_route_shares_nested_file ["docs"; "intro"]).
  - discriminate.
  - reflexivity.
Defined.

End OutputFiles.

(** ** What one page task does to the world *)

Section PageTask.
Import Effects RenderWorker.
Context {App Head : Type}.

Ltac frame_page solve_step :=
  repeat first
    [ apply preserves_bind; [|intros]
    | apply preserves_await
    | apply preserves_ret
    | solve_step
    | match goal with
      | |- Preserves _ (format _ _ ?f) => destruct f
      | |- Preserves _ (match ?x with _ => _ end) => destruct x
      | |- Preserves _ (let '(_, _) := ?x in _) => destruct x
      end ].

Lemma preserves_other_file_log (k : string) (l : LogLine) :
  Preserves (fun w => files w !! k) (log l).
Proof. now intros w. Qed.

Lemma preserves_other_file_ensureDir (env : Collaborators App Head)
      (k dir : string) :
  Preserves (fun w => files w !! k) (ensureDir env dir).
Proof.
  intros w. unfold ensureDir.
  now destruct (ensureDirFails env dir) as [[e made]|].
Qed.

Lemma preserves_other_file_writeFile (env : Collaborators App Head)
      (k file data : string) :
  k <> file -> Preserves (fun w => files w !! k) (writeFile env file data).
Proof.
  intros Hne w. unfold writeFile.
  destruct (writeFileFails env file) as [[e [written|]]|]; simpl;
    [| reflexivity |]; now apply lookup_insert_ne.
Qed.

Lemma preserves_directories_log (dirs : gset string) (l : LogLine) :
  Preserves (fun w => dirs ∪ directories w) (log l).
Proof. now intros w. Qed.

Lemma made_directories (dir : string) (made : nat) :
  list_to_set (C := gset string) (firstn made (rev (Path.ancestry dir)))
  ⊆ list_to_set (Path.ancestry dir).
Proof.
  intros x Hx. apply elem_of_list_to_set in Hx. apply elem_of_list_to_set.
  apply subseteq_take in Hx. apply list_elem_of_In in Hx.
  apply list_elem_of_In. now apply in_rev.
Qed.

Lemma preserves_directories_ensureDir (env : Collaborators App Head)
      (dir : string) :
  Preserves (fun w => list_to_set (Path.ancestry dir) ∪ directories w)
            (ensureDir env dir).
Proof.
  intros w. unfold ensureDir.
  destruct (ensureDirFails env dir) as [[e made]|];
    unfold bind, mkdirs, modify, throw; cbn [snd directories];
    rewrite (assoc_L (∪)); f_equal; rewrite (comm_L (∪));
    apply subseteq_union_1_L.
  - apply made_directories.
  - rewrite <- (firstn_all (rev (Path.ancestry dir))). apply made_directories.
Qed.

Lemma preserves_directories_writeFile (env : Collaborators App Head)
      (dirs : gset string) (file data : string) :
  Preserves (fun w => dirs ∪ directories w) (writeFile env file data).
Proof.
  intros w. unfold writeFile.
  now destruct (writeFileFails env file) as [[e [written|]]|].
Qed.

Lemma worker_world (env : Collaborators App Head) (ctx : WorkerContext)
      (w : World) :
  files (snd (worker env ctx w)) = files (snd (renderPage env ctx w)) /\
  directories (snd (worker env ctx w)) = directories (snd (renderPage env ctx w)).
Proof.
  rewrite worker_outcome.
  now destruct (renderPage env ctx w) as [[[]|[v|st|e]|] w'].
Qed.

Lemma renderPage_keeps_other_files (env : Collaborators App Head)
      (ctx : WorkerContext) (w : World) (k : string) :
  k <> Path.join [out ctx; filename (dirStyle ctx) (route ctx)] ->
  files (snd (renderPage env ctx w)) !! k = files w !! k.
Proof.
  intros Hk.
  enough (H : Preserves (fun w => files w !! k) (renderPage env ctx))
    by apply (H w).
  unfold renderPage. cbv zeta.
  frame_page ltac:(first
    [ apply preserves_other_file_log
    | apply preserves_other_file_ensureDir
    | apply preserves_other_file_writeFile; exact Hk ]).
Qed.

(** X8.  A page task changes no file but the one of its route, and makes
    no directory but the one of that file and the directories above it,
    whether it runs to its end, fails or hangs. *)
Theorem worker_touches_only_its_own_file
        (env : Collaborators App Head) (ctx : WorkerContext) (w : World) :
  let file := filename (dirStyle ctx) (route ctx) in
  (forall k, k <> Path.join [out ctx; file] ->
             files (snd (worker env ctx w)) !! k = files w !! k) /\
  directories (snd (worker env ctx w))
  ⊆ list_to_set (Path.ancestry (Path.join [out ctx; Path.dirname file]))
    ∪ directories w.
Proof.
  cbv zeta. destruct (worker_world env ctx w) as [-> ->]. split.
  - intros k Hk. now apply renderPage_keeps_other_files.
  - set (dir := Path.join [out ctx; Path.dirname (filename (dirStyle ctx) (route ctx))]).
    enough (H : Preserves (fun w => list_to_set (Path.ancestry dir) ∪ directories w)
                          (renderPage env ctx)).
    { specialize (H w). cbv beta in H. rewrite <- H. apply union_subseteq_r. }
    unfold renderPage. cbv zeta. fold dir.
    frame_page ltac:(first
      [ apply preserves_directories_log
      | apply preserves_directories_ensureDir
      | apply preserves_directories_writeFile ]).
Qed.







Lemma renderPage_console (env : Collaborators App Head) (ctx : WorkerContext)
      (w : World) :
  match importEntry env (ssrEntryPath ctx) with
  | Fulfilled _ =>
      console (snd (renderPage env ctx w))
      = console w ++ [LogPage (outDir ctx) (filename (dirStyle ctx) (route ctx))]
  | _ => console (snd (renderPage env ctx w)) = console w
  end.
Proof.
  unfold renderPage. cbv zeta. unfold bind at 1. unfold await at 1.
  destruct (importEntry env (ssrEntryPath ctx)) as [createApp|e|]; try reflexivity.
  unfold bind at 1. cbn [log modify].
  match goal with
  | |- console (snd (?k ?w1)) = _ =>
      enough (H : Preserves console k) by exact (H w1)
  end.
  assert (Hdir : forall d, Preserves console (ensureDir env d))
    by (intros d w'; unfold ensureDir;
        now destruct (ensureDirFails env d) as [[e made]|]).
  assert (Hwrite : forall f d, Preserves console (writeFile env f d))
    by (intros f d w'; unfold writeFile;
        now destruct (writeFileFails env f) as [[e [written|]]|]).
  frame_page ltac:(first [apply Hdir | apply Hwrite]).
Qed.

(** X10.  A page task prints at most two lines: the page line, once the
    server entry is loaded, and after it at most one error line, which
    names the route of the task.  A body that runs to its end prints the
    page line and nothing else. *)
Theorem worker_prints_page_line_and_at_most_one_error
        (env : Collaborators App Head) (ctx : WorkerContext) (w : World) :
  let page := LogPage (outDir ctx) (filename (dirStyle ctx) (route ctx)) in
  (exists l, console (snd (worker env ctx w)) = console w ++ l /\
             (l = [] \/ l = [page] \/
              exists stackText,
                l = [LogPageError (route ctx) stackText] \/
                l = [page; LogPageError (route ctx) stackText])) /\
  (fst (renderPage env ctx w) = Fulfilled tt ->
   console (snd (worker env ctx w)) = console w ++ [page]).
Proof.
  cbv zeta. pose proof (renderPage_console env ctx w) as Hbody.
  rewrite worker_outcome. split.
  - destruct (importEntry env (ssrEntryPath ctx)) as [createApp|e0|];
      destruct (renderPage env ctx w) as [[[]|[v|st|e]|] w']; simpl in *;
      rewrite Hbody.
    all: try (exists []; split; [now rewrite List.app_nil_r | now left]).
    all: try (eexists [_]; split; [reflexivity | right; left; reflexivity]).
    + eexists [_; _]. split; [now rewrite <- List.app_assoc|].
      right. right. exists st. now right.
    + exists [LogPageError (route ctx) st]. split; [reflexivity|].
      right. right. exists st. now left.
    + exists [LogPageError (route ctx) st]. split; [reflexivity|].
      right. right. exists st. now left.
  - intros Hdone.
    destruct (importEntry env (ssrEntryPath ctx)) as [createApp|e0|] eqn:E.
    + destruct (renderPage env ctx w) as [[[]|[v|st|e]|] w']; simpl in *;
        try discriminate. assumption.
    + exfalso. revert Hdone. unfold renderPage, bind, await. now rewrite E.
    + exfalso. revert Hdone. unfold renderPage, bind, await. now rewrite E.
Qed.

Lemma bind_fulfilled {A B} (m : Async A) (k : A -> Async B)
      (w w2 : World) (b : B) :
  bind m k w = (Fulfilled b, w2) ->
  exists a w1, m w = (Fulfilled a, w1) /\ k a w1 = (Fulfilled b, w2).
Proof.
  unfold bind. destruct (m w) as [[a|e|] w1]; try discriminate.
  intros H. now exists a, w1.
Qed.

Lemma await_fulfilled {A} (p : Outcome A) (w w1 : World) (a : A) :
  await p w = (Fulfilled a, w1) -> p = Fulfilled a /\ w1 = w.
Proof. unfold await. now intros [= -> ->]. Qed.

Lemma format_fulfilled (env : Collaborators App Head) (html : string)
      (f : Formatting) (w w1 : World) (data : string) :
  format env html f w = (Fulfilled data, w1) ->
  w1 = w /\
  match f with
  | FormatNone => data = html
  | Minify => minifier env html = Fulfilled data
  | Prettify => prettier env html = Fulfilled data
  end.
Proof.
  destruct f; simpl; unfold await, ret; intros [= H1 H2]; subst; auto.
Qed.

(** X11.  A body that has run to its end went through every step, in
    this order: the entry was loaded, the factory gave an application for
    the route, the router (if any) settled, the application was rendered,
    the fragment was spliced into the template, the document went through
    the DOM steps and through the formatter, and what the formatter gave
    is, to the letter, the new content of the file of the route. *)
Theorem written_page_is_the_formatted_document
        (env : Collaborators App Head) (ctx : WorkerContext) (w w' : World) :
  renderPage env ctx w = (Fulfilled tt, w') ->
  exists createApp appCtx appHTML modules html data,
    importEntry env (ssrEntryPath ctx) = Fulfilled createApp /\
    createApp (Some (route ctx)) = Fulfilled appCtx /\
    match router appCtx with
    | Some r => push r (route ctx) = Fulfilled tt /\ isReady r = Fulfilled tt
    | None => True
    end /\
    renderToString env (app appCtx) = Fulfilled (appHTML, modules) /\
    domPipeline env
      (renderHTML (indexHTML ctx) appHTML (initialState appCtx))
      modules (ssrManifest ctx) (head appCtx) = Fulfilled html /\
    match formatting ctx with
    | FormatNone => data = html
    | Minify => minifier env html = Fulfilled data
    | Prettify => prettier env html = Fulfilled data
    end /\
    files w'
    = <[Path.join [out ctx; filename (dirStyle ctx) (route ctx)] := data]>
        (files w).
Proof.
  unfold renderPage. cbv zeta. intros H.
  apply bind_fulfilled in H as (createApp & w1 & H1 & H).
  apply await_fulfilled in H1 as [H1 ->].
  apply bind_fulfilled in H as ([] & w2 & Hlog & H).
  injection Hlog as <-.
  apply bind_fulfilled in H as (appCtx & w3 & H2 & H).
  apply await_fulfilled in H2 as [H2 ->].
  apply bind_fulfilled in H as ([] & w4 & Hrouter & H).
  assert (Hr : match router appCtx with
               | Some r => push r (route ctx) = Fulfilled tt /\
                           isReady r = Fulfilled tt
               | None => True
               end /\ files w4 = files w).
  { destruct (router appCtx) as [r|].
    - apply bind_fulfilled in Hrouter as ([] & w5 & Hp & Hq).
      apply await_fulfilled in Hp as [Hp ->].
      apply await_fulfilled in Hq as [Hq ->]. auto.
    - injection Hrouter as <-. auto. }
  destruct Hr as [Hr Hfiles4].
  apply bind_fulfilled in H as ([appHTML modules] & w5 & H3 & H).
  apply await_fulfilled in H3 as [H3 ->].
  apply bind_fulfilled in H as (html & w6 & H4 & H).
  apply await_fulfilled in H4 as [H4 ->].
  apply bind_fulfilled in H as (data & w7 & H5 & H).
  apply format_fulfilled in H5 as [-> H5].
  apply bind_fulfilled in H as ([] & w8 & Hdir & H).
  assert (Hfiles8 : files w8 = files w4).
  { revert Hdir. unfold ensureDir.
    destruct (ensureDirFails env _) as [[e made]|]; [discriminate|].
    now intros [= <-]. }
  apply bind_fulfilled in H as ([] & w9 & Hwrite & H).
  apply await_fulfilled in H as [_ ->].
  assert (Hfiles9 : files w9
                    = <[Path.join [out ctx; filename (dirStyle ctx) (route ctx)]
                        := data]> (files w8)).
  { revert Hwrite. unfold writeFile.
    destruct (writeFileFails env _) as [[e [written|]]|]; [discriminate.. |].
    now intros [= <-]. }
  exists createApp, appCtx, appHTML, modules, html, data.
  repeat split; try assumption.
  now rewrite Hfiles9, Hfiles8, Hfiles4.
Qed.

End PageTask.


Lemma written_page_is_the_formatted_document_witness :
  let env := Site.workers (Effects.Rejected (Effects.ThrownValue "Error: boom")) in
  exists data,
    Effects.files (snd (RenderWorker.renderPage env (Site.task "/ok")
                                                Effects.emptyWorld))
    = <["/site/dist/ok.html" := data]> ∅.
Proof.
  cbv zeta.
  destruct (written_page_is_the_formatted_document
              (Site.workers (Effects.Rejected (Effects.ThrownValue "Error: boom")))
              (Site.task "/ok") Effects.emptyWorld
              (snd (RenderWorker.renderPage
                      (Site.workers (Effects.Rejected (Effects.ThrownValue "Error: boom")))
                      (Site.task "/ok") Effects.emptyWorld)))
    as (createApp & appCtx & appHTML & modules & html & data & _ & _ & _ & _ & _ & _ & H).
  - reflexivity.
  - exists data. exact H.
Defined.

(** ** The batch and the steps around it *)

Section Supervisor.
Import Effects RenderWorker Render.
Context {App Head : Type}.

(** X12.  A batch in which every page body runs to its end or throws a
    value that the [catch] block can print, one whose stack can be read
    and turned into text, is fulfilled as a whole, and after it the file
    of every route whose body runs to its end is there. *)
Theorem batch_survives_thrown_values
        (env : Collaborators App Head) (threads : Z)
        (tasks : list WorkerContext) (w : World) :
  (0 < threads)%Z ->
  (forall task w', In task tasks ->
                   absorbed (fst (renderPage env task w')) = true) ->
  fst (renderAll env threads tasks w) = Fulfilled tt /\
  forall task,
    In task tasks ->
    (forall w', fst (renderPage env task w') = Fulfilled tt) ->
    is_Some (files (snd (renderAll env threads tasks w))
             !! Path.join [out task; filename (dirStyle task) (route task)]).
Proof.
  intros Hthreads Hbodies. split.
  - now apply renderAll_fulfilled.
  - intros task Hin Hok. now apply renderAll_writes_pages.
Qed.

Lemma stops_bind {A B X} (f : World -> X) (m : Async A) (k : A -> Async B) :
  Preserves f m -> (forall a, Stops f (k a)) -> Stops f (bind m k).
Proof.
  intros Hm Hk. split.
  - apply preserves_bind; [assumption | intros a; apply Hk].
  - intros w b. unfold bind.
    destruct (m w) as [[a|e|] w']; simpl; try discriminate. apply Hk.
Qed.

Lemma stops_here {A B X} (f : World -> X) (m : Async A) (k : A -> Async B) :
  Preserves f m -> (forall w a, fst (m w) <> Fulfilled a) -> Stops f (bind m k).
Proof.
  intros Hm Hstuck. split.
  - intros w. unfold bind. specialize (Hm w). specialize (Hstuck w).
    destruct (m w) as [[a|e|] w']; simpl in *; [now destruct (Hstuck a) | assumption..].
  - intros w b. unfold bind. specialize (Hstuck w).
    destruct (m w) as [[a|e|] w']; simpl in *; [now destruct (Hstuck a) | discriminate..].
Qed.

Lemma preserves_durable_log (l : LogLine) : Preserves durable (log l).
Proof. now intros w. Qed.

Ltac frame_early :=
  repeat first
    [ apply preserves_routesPaths
    | apply preserves_durable_log
    | apply preserves_await
    | apply preserves_ret
    | apply preserves_bind; [|intros]
    | match goal with
      | |- Preserves _ (match ?x with _ => _ end) => destruct x
      | |- Preserves _ (if ?x then _ else _) => destruct x
      end ].

Lemma stops_from {A X} (P : World -> Prop) (f : World -> X) (m : Async A) :
  Stops f m -> StopsFrom P f m.
Proof. intros [Hsame Hstuck] w _. split; [apply Hsame | apply Hstuck]. Qed.

Lemma stopsFrom_bind {A B X} (P : X -> Prop) (f : World -> X)
      (m : Async A) (k : A -> Async B) :
  Preserves f m ->
  (forall a, StopsFrom (fun w => P (f w)) f (k a)) ->
  StopsFrom (fun w => P (f w)) f (bind m k).
Proof.
  intros Hm Hk w HP. unfold bind. specialize (Hm w).
  destruct (m w) as [[a|e|] w']; simpl in *; [|split; [assumption|discriminate]..].
  rewrite <- Hm in HP. destruct (Hk a w' HP) as [Hsame Hstuck].
  split; [congruence | exact Hstuck].
Qed.

(** Without a template in either place the load is rejected and writes
    nothing. *)
Lemma loadIndexHTML_without_template {B} (env : Collaborators App Head)
      (ssgOut out : string) (script : option string) (k : string -> Async B) :
  StopsFrom (fun w => (fun d => d.1.1 !! Path.join [ssgOut; "index.html"] = None /\
                                d.1.1 !! Path.join [out; "index.html"] = None)
                        (durable w))
            durable (bind (loadIndexHTML env ssgOut out script) k).
Proof.
  intros w [Hcopy Hbuilt]. simpl in Hcopy, Hbuilt.
  unfold bind, loadIndexHTML, tryCatch, readFile.
  rewrite Hcopy. unfold bind. rewrite Hbuilt. simpl. split; [reflexivity|].
  discriminate.
Qed.

(** X13.  When the server entry cannot be loaded or the manifest cannot
    be read, or when the index template is neither in the temporary
    directory nor in the output directory, [render] does not run to its
    end and nothing outlasts it: no file is written, no directory made,
    no hook called and no timer armed. *)
Theorem render_without_its_inputs_changes_nothing
        (env : Setup App Head) (opts : Options) (w : World) :
  (forall f, mainEntry env <> Fulfilled f) \/
  (forall m, readManifest env <> Fulfilled m) \/
  (files w !! Path.join [ssgOut env; "index.html"] = None /\
   files w !! Path.join [resolvedOut env; "index.html"] = None) ->
  fst (render env opts w) <> Fulfilled tt /\
  durable (snd (render env opts w)) = durable w.
Proof.
  intros Hmissing.
  set (P := fun d : gmap string string * gset string * (nat * nat * list Timer) =>
              d.1.1 !! Path.join [ssgOut env; "index.html"] = None /\
              d.1.1 !! Path.join [resolvedOut env; "index.html"] = None).
  enough (H : StopsFrom (fun w0 => w0 = w) durable (render env opts)).
  { destruct (H w eq_refl) as [Hsame Hstuck]. split; [apply Hstuck | apply Hsame]. }
  destruct Hmissing as [Hentry|[Hmanifest|Htemplate]].
  - apply stops_from. unfold render. cbv zeta.
    apply stops_here; [apply preserves_await|].
    intros w0 x. unfold await. simpl. apply Hentry.
  - apply stops_from. unfold render. cbv zeta.
    do 6 (apply stops_bind; [solve [frame_early] | intros]).
    apply stops_here; [apply preserves_await|].
    intros w0 x. unfold await. simpl. apply Hmanifest.
  - enough (H : StopsFrom (fun w0 => P (durable w0)) durable (render env opts))
      by (intros w0 ->; now apply H).
    unfold render. cbv zeta.
    do 7 (apply (stopsFrom_bind P durable); [solve [frame_early] | intros]).
    apply loadIndexHTML_without_template.
Qed.

(** X14.  The completion hook is called once by a [render] that runs
    to its end, never more than once by any [render], and not at all
    when there is none. *)
Theorem onFinished_is_called_once_at_the_end
        (env : Setup App Head) (opts : Options) (w : World) :
  let n := match onFinished opts with Some _ => 1 | None => 0 end in
  (fst (render env opts w) = Fulfilled tt ->
   finishedCalls (snd (render env opts w)) = finishedCalls w + n) /\
  finishedCalls (snd (render env opts w)) <= finishedCalls w + n.
Proof. apply (render_calls_onFinished_once env opts w). Qed.

Lemma preserves_swRegenerations {A} (m : Async A) :
  Preserves supervisorState m -> Preserves swRegenerations m.
Proof. intros H. now apply preserves_projection in H. Qed.

Lemma bumps_bind_before {A B} (f : World -> nat) (n : nat)
      (m : Async A) (k : A -> Async B) :
  Preserves f m -> (forall a, Bumps f n (k a)) -> Bumps f n (bind m k).
Proof.
  intros Hm Hk w. unfold bind. specialize (Hm w).
  destruct (m w) as [[a|e|] w']; simpl in *.
  - rewrite <- Hm. apply Hk.
  - split; [discriminate | lia].
  - split; [discriminate | lia].
Qed.

Lemma bumps_bind_after {A B} (f : World -> nat) (n : nat)
      (m : Async A) (k : A -> Async B) :
  Bumps f n m -> (forall a, Preserves f (k a)) -> Bumps f n (bind m k).
Proof.
  intros Hm Hk w. unfold bind. destruct (Hm w) as [Hdone Hmost].
  destruct (m w) as [[a|e|] w']; simpl in *.
  - pose proof (Hk a w') as E. unfold Preserves in E. rewrite E.
    split; [intros _ _; now apply (Hdone a) | assumption].
  - split; [discriminate | assumption].
  - split; [discriminate | assumption].
Qed.

Lemma bumps_regenerate (hook : option (Outcome unit)) :
  Bumps swRegenerations (match hook with Some _ => 1 | None => 0 end)
        (match hook with
         | Some h => bind (log LogRegeneratePWA) (fun _ => regenerateSW h)
         | None => ret tt
         end).
Proof.
  intros w. destruct hook as [[[]|e|]|]; cbn; split; intros; lia.
Qed.

Ltac frame_counter project :=
  repeat first
    [ apply preserves_routesPaths
    | project; apply preserves_renderAll
    | project; apply preserves_loadIndexHTML
    | project; apply preserves_log
    | apply preserves_await
    | apply preserves_ret
    | apply preserves_bind; [|intros]
    | match goal with
      | |- Preserves _ (match ?x with _ => _ end) => destruct x
      | |- Preserves _ (if ?x then _ else _) => destruct x
      end ].

Lemma preserves_swRegenerations_rest (hook : option (Outcome unit)) :
  Preserves swRegenerations
    (bind (log LogBuildFinished)
       (fun _ => bind (callOnFinished hook)
          (fun _ => bind (setTimeout (ForceExit (LogForceExit waitInSeconds) 0)
                                     (waitInSeconds * 1000))
                         unref))).
Proof.
  intros w. destruct hook as [[[]|e|]|]; reflexivity.
Qed.

Lemma regenerate_stuck (h : Outcome unit) :
  h <> Fulfilled tt ->
  forall w (a : unit),
    fst (bind (log LogRegeneratePWA) (fun _ => regenerateSW h) w) <> Fulfilled a.
Proof.
  intros Hh w []. cbn. exact Hh.
Qed.

(** X15.  The regeneration hook of the PWA plugin is called once by a
    [render] that runs to its end, never more than once, and not at all
    without the plugin.  It is called before the completion hook: when
    it is rejected or never settles, the completion hook is not called. *)
Theorem generateSW_is_called_once_before_onFinished
        (env : Setup App Head) (opts : Options) (w : World) :
  let n := match generateSW env with Some _ => 1 | None => 0 end in
  (fst (render env opts w) = Fulfilled tt ->
   swRegenerations (snd (render env opts w)) = swRegenerations w + n) /\
  swRegenerations (snd (render env opts w)) <= swRegenerations w + n /\
  (forall hook, generateSW env = Some hook -> hook <> Fulfilled tt ->
                finishedCalls (snd (render env opts w)) = finishedCalls w).
Proof.
  cbv zeta.
  assert (Hbumps : Bumps swRegenerations
                         (match generateSW env with Some _ => 1 | None => 0 end)
                         (render env opts)).
  { unfold render. cbv zeta.
    do 10 (apply bumps_bind_before;
           [solve [frame_counter ltac:(apply preserves_swRegenerations)] | intros]).
    apply bumps_bind_after; [apply bumps_regenerate|].
    intros _. apply preserves_swRegenerations_rest. }
  destruct (Hbumps w) as [Hdone Hmost].
  split; [intros H; now apply (Hdone tt) | split; [assumption|]].
  intros hook Hhook Hstuck.
  enough (H : Stops finishedCalls (render env opts)) by apply H.
  unfold render. cbv zeta.
  do 10 (apply stops_bind;
         [solve [frame_counter ltac:(apply preserves_finishedCalls)] | intros]).
  rewrite Hhook. apply stops_here.
  - apply preserves_bind; [now intros w0 | intros; now intros w0].
  - now apply regenerate_stuck.
Qed.

End Supervisor.

Lemma batch_survives_thrown_values_witness :
  let env := Site.workers (Effects.Rejected (Effects.ThrownValue "Error: boom")) in
  let tasks := [Site.task "/broken"; Site.task "/ok"] in
  fst (Render.renderAll env 2 tasks Effects.emptyWorld) = Effects.Fulfilled tt /\
  is_Some (Effects.files (snd (Render.renderAll env 2 tasks Effects.emptyWorld))
           !! "/site/dist/ok.html").
Proof.
  cbv zeta.
  destruct (batch_survives_thrown_values
              (Site.workers (Effects.Rejected (Effects.ThrownValue "Error: boom")))
              2 [Site.task "/broken"; Site.task "/ok"] Effects.emptyWorld)
    as [Hall Hfiles].
  - reflexivity.
  - intros task w' [<-|[<-|[]]]; vm_compute; reflexivity.
  - split; [exact Hall|].
    apply (Hfiles (Site.task "/ok")); [right; now left|].
    intros w'. vm_compute. reflexivity.
Defined.

Lemma render_without_its_inputs_changes_nothing_witness :
  let env := Site.setup (Effects.Fulfilled Site.context) None in
  (fst (Render.render Site.setupWithoutManifest Site.options Site.world)
   = Effects.Fulfilled tt -> False) /\
  Effects.durable
    (snd (Render.render Site.setupWithoutManifest Site.options Site.world))
  = Effects.durable Site.world /\
  (fst (Render.render env Site.options Effects.emptyWorld)
   = Effects.Fulfilled tt -> False) /\
  Effects.durable (snd (Render.render env Site.options Effects.emptyWorld))
  = Effects.durable Effects.emptyWorld.
Proof.
  cbv zeta.
  destruct (render_without_its_inputs_changes_nothing
              Site.setupWithoutManifest Site.options Site.world) as [H1 H2].
  { right. left. intros m. discriminate. }
  destruct (render_without_its_inputs_changes_nothing
              (Site.setup (Effects.Fulfilled Site.context) None)
              Site.options Effects.emptyWorld) as [H3 H4].
  { right. right. split; reflexivity. }
  exact (conj H1 (conj H2 (conj H3 H4))).
Defined.

Lemma onFinished_is_called_once_at_the_end_witness :
  Effects.finishedCalls
    (snd (Render.render (Site.setup (Effects.Fulfilled Site.context) None)
                        Site.options Site.world))
  = 1.
Proof.
  apply (proj1 (onFinished_is_called_once_at_the_end
                  (Site.setup (Effects.Fulfilled Site.context) None)
                  Site.options Site.world)).
  vm_compute. reflexivity.
Defined.

Lemma generateSW_is_called_once_before_onFinished_witness :
  let stuck := Render.render
                 (Site.setup (Effects.Fulfilled Site.context)
                             (Some (Effects.Rejected (Effects.ThrownValue "sw failed"))))
                 Site.options Site.world in
  Effects.swRegenerations (snd stuck) <= 1 /\
  Effects.finishedCalls (snd stuck) = 0.
Proof.
  cbv zeta.
  destruct (generateSW_is_called_once_before_onFinished
              (Site.setup (Effects.Fulfilled Site.context)
                          (Some (Effects.Rejected (Effects.ThrownValue "sw failed"))))
              Site.options Site.world) as (_ & Hmost & Hbefore).
  split; [exact Hmost|].
  apply (Hbefore (Effects.Rejected (Effects.ThrownValue "sw failed")));
    [reflexivity | discriminate].
Defined.

(** ** A site without a route table *)

Section RootPage.
Import Effects RenderWorker Render.
Context {App Head : Type}.












End RootPage.




(** ** More on the size of the pool *)

Section PoolSize.
Local Open Scope Q_scope.
Import Double.

(** X16.  More CPUs or more free memory never give a smaller pool: the
    two divisions are rounded to the nearest number, and rounding keeps
    the order. *)
Theorem pool_size_is_monotone
        (url : option string) (cpus cpus' : nat) (freemem freemem' : Z) :
  (cpus <= cpus')%nat -> (0 <= freemem <= freemem')%Z ->
  (Render.maxThreads url cpus freemem <= Render.maxThreads url cpus' freemem')%Z.
Proof.
  intros Hc Hm. unfold Render.maxThreads.
  destruct (JS.truthy url); [lia|].
  apply Z.max_le_compat_l, Qfloor_resp_le, Q.min_le_compat.
  - unfold Render.perCpu. apply div_le.
    + apply round_nonneg. change 0 with (inject_Z 0). rewrite <- Zle_Qle. lia.
    + apply ofZ_le. lia.
    + vm_compute. reflexivity.
  - unfold Render.perMemory. apply div_le.
    + apply round_nonneg. change 0 with (inject_Z 0). rewrite <- Zle_Qle. lia.
    + apply ofZ_le. lia.
    + apply bytesPerThread_pos.
Qed.

Lemma pool_size_is_monotone_witness :
  (Render.maxThreads None 4 (3 * 1024 ^ 3)
   <= Render.maxThreads None 16 (64 * 1024 ^ 3))%Z.
Proof. apply (pool_size_is_monotone None 4 16); [lia | lia]. Defined.

End PoolSize.

(** ** The index template *)

Section IndexTemplate.
Import Effects RenderWorker Render.

Lemma replaceEach_unfold (p r : string) (skip : nat) (before : string)
      (c : ascii) (rest : string) :
  JS.replaceEach p r skip before (String c rest) =
  match skip with
  | S k => JS.replaceEach p r k (before +:+ String c "") rest
  | O =>
      match JS.stripPrefix p (String c rest) with
      | Some after =>
          JS.getSubstitution p before after r
          +:+ JS.replaceEach p r (String.length p - 1) (before +:+ String c "") rest
      | None => String c (JS.replaceEach p r 0 (before +:+ String c "") rest)
      end
  end.
Proof. reflexivity. Qed.

Lemma append_cons_assoc (a : string) (c : ascii) (b : string) :
  (a +:+ String c "") +:+ b = a +:+ String c b.
Proof. now rewrite append_assoc. Qed.

(** Passing the rest of a match. *)
Lemma replaceEach_skip (p r x t before : string) :
  JS.replaceEach p r (String.length x) before (x +:+ t)
  = JS.replaceEach p r 0 (before +:+ x) t.
Proof.
  revert before; induction x as [|c x IH]; intros before.
  - simpl. now rewrite append_empty_r.
  - change (String c x +:+ t) with (String c (x +:+ t)).
    simpl String.length. rewrite replaceEach_unfold, IH.
    now rewrite append_cons_assoc.
Qed.

(** Without an occurrence nothing is replaced. *)
Lemma replaceEach_none (p r s before : string) :
  JS.splitFirst p s = None -> JS.replaceEach p r 0 before s = s.
Proof.
  revert before; induction s as [|c s IH]; intros before; [reflexivity|].
  rewrite splitFirst_unfold, replaceEach_unfold.
  destruct (JS.stripPrefix p (String c s)); [discriminate|].
  destruct (JS.splitFirst p s) as [[a b]|]; [discriminate|].
  intros _. now rewrite IH.
Qed.

(** Up to and including the first occurrence. *)
Lemma replaceEach_first (p r s a b before : string) :
  p <> "" ->
  JS.splitFirst p s = Some (a, b) ->
  JS.replaceEach p r 0 before s
  = a +:+ JS.getSubstitution p (before +:+ a) b r
    +:+ JS.replaceEach p r 0 (before +:+ a +:+ p) b.
Proof.
  intros Hp. revert a before; induction s as [|c s IH]; intros a before.
  - rewrite splitFirst_unfold.
    destruct (JS.stripPrefix p "") as [rest|] eqn:E; [|discriminate].
    apply stripPrefix_spec in E. destruct p; [easy | discriminate].
  - rewrite splitFirst_unfold, replaceEach_unfold.
    destruct (JS.stripPrefix p (String c s)) as [rest|] eqn:E.
    + intros [= <- <-]. apply stripPrefix_spec in E.
      destruct p as [|c' p']; [easy|]. injection E as <- ->.
      replace (String.length (String c p') - 1) with (String.length p')
        by (simpl; lia).
      rewrite replaceEach_skip.
      simpl. now rewrite append_empty_r, append_cons_assoc.
    + destruct (JS.splitFirst p s) as [[a' b']|] eqn:E2; [|discriminate].
      intros [= <- <-]. rewrite (IH a' _ eq_refl).
      simpl. now rewrite !append_cons_assoc.
Qed.

Lemma replacement_of_module_script (mode before after : string) :
  JS.patternFree mode = true ->
  JS.getSubstitution moduleScript before after (moduleScript +:+ mode +:+ " ")
  = moduleScript +:+ mode +:+ " ".
Proof.
  intros Hmode.
  assert (Hhead : forall y, JS.getSubstitution moduleScript before after
                              (moduleScript +:+ y)
                            = moduleScript
                              +:+ JS.getSubstitution moduleScript before after y)
    by reflexivity.
  rewrite Hhead. f_equal.
  change (mode +:+ " ") with (mode +:+ String " " "").
  now rewrite getSubstitution_patternFree.
Qed.

(** When the replacement has no pattern, the text in front plays no part. *)
Lemma replaceEach_before (p r s : string) :
  (forall b a, JS.getSubstitution p b a r = r) ->
  forall skip b1 b2,
    JS.replaceEach p r skip b1 s = JS.replaceEach p r skip b2 s.
Proof.
  intros Hr. induction s as [|c s IH]; intros skip b1 b2; [reflexivity|].
  rewrite !replaceEach_unfold. destruct skip as [|k]; [|apply IH].
  destruct (JS.stripPrefix p (String c s)).
  - rewrite !Hr. f_equal. apply IH.
  - f_equal. apply IH.
Qed.

(** X17.  [rewriteScripts] gives the template back as it is when the
    template has no module script, whatever the mode, and when the mode
    is [sync], empty or left out, whatever the template. *)
Theorem rewriteScripts_leaves_template_alone
        (indexHTML : string) (mode : string) :
  (forall before after, indexHTML <> before +:+ moduleScript +:+ after) \/
  mode = "sync" \/ mode = "" ->
  rewriteScripts indexHTML (Some mode) = indexHTML /\
  rewriteScripts indexHTML None = indexHTML.
Proof.
  intros H. split; [|reflexivity]. unfold rewriteScripts.
  destruct H as [Hnone|[-> | ->]]; [|reflexivity..].
  destruct (negb (JS.truthy (Some mode)) || String.eqb (JS.orEmpty (Some mode)) "sync");
    [reflexivity|].
  apply replaceEach_none. now apply splitFirst_None.
Qed.

Lemma rewriteScripts_leaves_template_alone_witness :
  rewriteScripts "<head><script src='classic.js'></script></head>" (Some "async")
  = "<head><script src='classic.js'></script></head>".
Proof.
  apply (rewriteScripts_leaves_template_alone
           "<head><script src='classic.js'></script></head>" "async").
  left. apply splitFirst_None. reflexivity.
Defined.

(** X18.  For a mode other than [sync], not empty and without a
    replacement pattern, the template up to its first module script
    comes back with the mode and a space put behind that script, and the
    text after it is rewritten in the same way: every module script gets
    the mode, and nothing else changes. *)
Theorem rewriteScripts_marks_every_module_script
        (indexHTML before after mode : string) :
  indexHTML = before +:+ moduleScript +:+ after ->
  (forall b a, indexHTML = b +:+ moduleScript +:+ a ->
               String.length before <= String.length b) ->
  mode <> "" -> mode <> "sync" -> JS.patternFree mode = true ->
  rewriteScripts indexHTML (Some mode)
  = before +:+ moduleScript +:+ mode +:+ " "
    +:+ rewriteScripts after (Some mode).
Proof.
  intros Hsplit Hfirst Hne Hsync Hfree. unfold rewriteScripts.
  change (JS.truthy (Some mode)) with (negb (String.eqb mode "")).
  change (JS.orEmpty (Some mode)) with mode.
  apply String.eqb_neq in Hne, Hsync. rewrite Hne, Hsync. cbn [negb orb].
  unfold JS.replaceAll.
  rewrite (replaceEach_first moduleScript _ indexHTML before after "");
    [|discriminate | now apply splitFirst_first].
  rewrite replacement_of_module_script by assumption.
  rewrite (replaceEach_before moduleScript _ after
             (fun b a => replacement_of_module_script mode b a Hfree)
             0 _ "").
  now rewrite !append_assoc.
Qed.

Lemma rewriteScripts_marks_every_module_script_witness :
  rewriteScripts
    ("<head>" +:+ moduleScript +:+ "src='/a.js'></script>"
     +:+ moduleScript +:+ "src='/b.js'></script></head>")
    (Some "defer")
  = "<head>" +:+ moduleScript +:+ "defer" +:+ " "
    +:+ rewriteScripts ("src='/a.js'></script>"
                        +:+ moduleScript +:+ "src='/b.js'></script></head>")
                       (Some "defer").
Proof.
  apply (rewriteScripts_marks_every_module_script
           ("<head>" +:+ moduleScript +:+ "src='/a.js'></script>"
            +:+ moduleScript +:+ "src='/b.js'></script></head>")
           "<head>"
           ("src='/a.js'></script>"
            +:+ moduleScript +:+ "src='/b.js'></script></head>")
           "defer").
  - reflexivity.
  - exact (splitFirst_minimal moduleScript
             ("<head>" +:+ moduleScript +:+ "src='/a.js'></script>"
              +:+ moduleScript +:+ "src='/b.js'></script></head>")
             "<head>"
             ("src='/a.js'></script>"
              +:+ moduleScript +:+ "src='/b.js'></script></head>")
             eq_refl).
  - discriminate.
  - discriminate.
  - reflexivity.
Defined.

Lemma readFile_unfold (path : string) (w : World) :
  readFile path w =
  match files w !! path with
  | Some data => (Fulfilled data, w)
  | None => (Rejected (ThrownValue "Error: ENOENT: no such file or directory"), w)
  end.
Proof. reflexivity. Qed.

(** X19.  A load of the index template that is fulfilled can be repeated:
    the text is then in the temporary directory, and a second load gives
    the same text and changes nothing.  The text is the copy that was
    there, or else the rewritten template of the client build. *)
Theorem loadIndexHTML_is_repeatable
        {App Head : Type} (env : Collaborators App Head)
        (ssgOut out : string) (script : option string)
        (w w1 : World) (text : string) :
  loadIndexHTML env ssgOut out script w = (Fulfilled text, w1) ->
  loadIndexHTML env ssgOut out script w1 = (Fulfilled text, w1) /\
  files w1 !! Path.join [ssgOut; "index.html"] = Some text /\
  ((files w !! Path.join [ssgOut; "index.html"] = Some text /\ w1 = w) \/
   (files w !! Path.join [ssgOut; "index.html"] = None /\
    exists built, files w !! Path.join [out; "index.html"] = Some built /\
                  text = rewriteScripts built script)).
Proof.
  unfold loadIndexHTML, tryCatch. rewrite !readFile_unfold.
  destruct (files w !! Path.join [ssgOut; "index.html"]) as [cached|] eqn:Ecache.
  - intros [= <- <-]. rewrite Ecache. auto.
  - unfold bind. rewrite readFile_unfold.
    destruct (files w !! Path.join [out; "index.html"]) as [built|] eqn:Ebuilt;
      [|discriminate].
    unfold writeFile.
    destruct (writeFileFails env (Path.join [ssgOut; "index.html"]))
      as [[e [written|]]|]; [cbn; discriminate.. |].
    cbn. intros [= <- <-]. cbn. rewrite lookup_insert_eq.
    split; [reflexivity|]. split; [reflexivity|].
    right. split; [reflexivity|]. now exists built.
Qed.

End IndexTemplate.

Lemma loadIndexHTML_is_repeatable_witness :
  let load := Render.loadIndexHTML (Site.workers (Effects.Fulfilled Site.context))
                                   "/site/.vite-ssg-temp" "/site/dist"
                                   (Some "async") in
  let first := load Site.afterClientBuild in
  fst first = Effects.Fulfilled
                (Render.rewriteScripts Site.builtTemplate (Some "async")) /\
  load (snd first) = first.
Proof.
  cbv zeta.
  destruct (loadIndexHTML_is_repeatable
              (Site.workers (Effects.Fulfilled Site.context))
              "/site/.vite-ssg-temp" "/site/dist" (Some "async")
              Site.afterClientBuild
              (snd (Render.loadIndexHTML
                      (Site.workers (Effects.Fulfilled Site.context))
                      "/site/.vite-ssg-temp" "/site/dist" (Some "async")
                      Site.afterClientBuild))
              (Render.rewriteScripts Site.builtTemplate (Some "async")))
    as (Hagain & _ & _).
  - reflexivity.
  - split; [reflexivity | exact Hagain].
Defined.

(** ** The size shown for a text *)

Section Sizes.
Import Utils.

(** X20.  [getSize] shows whole KiB with two zeros behind the point: a
    text of [1024 * k] characters is shown as [k.00 KiB].  A text of at
    most five characters, the empty one among them, is shown as
    [0.00 KiB]. *)
Theorem getSize_of_whole_and_tiny_texts (str : string) :
  (forall k, String.length str = 1024 * k ->
             getSize str
             = NilZero.string_of_uint (Nat.to_uint k) +:+ ".00 KiB") /\
  (String.length str <= 5 -> getSize str = "0.00 KiB").
Proof.
  unfold getSize, hundredthsOfKiB. split.
  - intros k ->.
    replace (200 * (1024 * k) + 1024) with (100 * k * 2048 + 1024) by lia.
    rewrite Nat.div_add_l by discriminate.
    change (1024 / 2048) with 0. rewrite Nat.add_0_r.
    unfold toFixed2.
    rewrite (Nat.mul_comm 100 k), Nat.div_mul, Nat.Div0.mod_mul by discriminate.
    now rewrite !append_assoc.
  - intros Hlen. rewrite Nat.div_small by lia. reflexivity.
Qed.

Lemma getSize_of_whole_and_tiny_texts_witness :
  getSize "" = "0.00 KiB" /\ getSize "12345" = "0.00 KiB".
Proof.
  split.
  - apply (proj1 (getSize_of_whole_and_tiny_texts "") 0). reflexivity.
  - apply (proj2 (getSize_of_whole_and_tiny_texts "12345")). simpl. lia.
Defined.

End Sizes.
